(** * PartialProgramLayer: the dygraph-to-static execution bridge

    A shallow embedding of
    [python/paddle/fluid/dygraph/dygraph_to_static/partial_program.py]
    and the properties its specification states about it.

    Python values are modelled by the inductive types [leaf] and [nest],
    exceptions by the [result] type, the instance (with its attribute
    dictionary) by the record [PartialProgramLayer], and the calls that
    leave the file (autodiff, interpreter) by the class [Framework]. *)

From Stdlib Require Import ZArith Lia Sorted.
From stdpp Require Import base option list strings gmap.


(** ** Exceptions *)

Inductive exn :=
| AssertionError
| IndexError
| AttributeError
| KeyError
| TypeError_params (* self._params is neither list nor tuple *)
| TypeError_param_entry (i : nat) (* self._params[i] is not a VarBase *)
| TypeError_len (* len() of an object without __len__ *)
| ValueError_pack (* pack_sequence_as: arity mismatch *)
| ValueError_param_created (name : string)
  (* "... But we found parameter(%s) was created in the decorated
     function ..." % name *)
| InterpreterError (what : string). (* raised inside trace_op *)

Inductive result (A : Type) :=
| Ok (a : A)
| Raise (e : exn).
Arguments Ok {A} a.
Arguments Raise {A} e.

Definition is_ok {A} (r : result A) : bool :=
  match r with Ok _ => true | Raise _ => false end.

(** ** Descriptors and tensors *)

Inductive VarType := LOD_TENSOR | SELECTED_ROWS | LOD_TENSOR_ARRAY | STEP_SCOPES.
Inductive DataType := BOOL | INT32 | INT64 | FP32 | FP64.

Record VarDesc := mkVarDesc {
  desc_name : string;
  desc_dtype : DataType;
  desc_shape : list Z;
  desc_type : VarType
}.

(** [framework.Variable]; [is_parameter] is
    [isinstance(var, framework.Parameter)]. *)
Record FVariable := mkFVariable {
  desc : VarDesc;
  persistable : bool;
  is_parameter : bool
}.

Definition var_name (v : FVariable) : string := desc_name (desc v).

(** ** Programs *)

Inductive attr :=
| ABool (b : bool)
| AInt (z : Z)
| AStr (s : string)
| AStrs (l : list string).

Record Operator := mkOperator {
  op_type : string;
  input_arg_names : list string;
  output_arg_names : list string;
  attrs : gmap string attr
}.

(** [block.vars] is an ordered dict: its items, in insertion order. *)
Record Block := mkBlock {
  ops : list Operator;
  vars : list (string * FVariable)
}.

(** A program always has its global block, [blocks[0]]. *)
Record Program := mkProgram {
  global_block : Block;
  sub_blocks : list Block
}.

Definition blocks (p : Program) : list Block := global_block p :: sub_blocks p.
Arguments blocks : simpl never.

(** [desc.block(0).op_size()] *)
Definition op_size (b : Block) : nat := length (ops b).

(** ** Tensor data *)

(** [elem] is the type of one tensor element, [is_magic x] the comparison
    [x == RETURN_NO_VALUE_MAGIC_NUM] (the constant is defined in
    [return_transformer], outside this file) and [one] the element that the
    Python literal [1] becomes in the tensor built by [valid_vars]. *)
Class TensorData := {
  elem : Type;
  is_magic : elem → bool;
  one : elem
}.

Section Values.
Context {D : TensorData}.

(** [core.VarBase]: [numpy] is the tensor's data in row-major order. *)
Record VarBase := mkVarBase {
  vb_name : string;
  vb_dtype : DataType;
  shape : list Z;
  numpy : list elem;
  vb_type : VarType;
  vb_persistable : bool;
  stop_gradient : bool;
  grad_type : VarType
}.

Record ndarray := mkNdarray {
  nd_dtype : DataType;
  nd_shape : list Z;
  nd_data : list elem
}.

(** Values that [flatten] does not descend into. *)
Inductive leaf :=
| LNone
| LVariable (v : FVariable)
| LVarBase (t : VarBase)
| LNdarray (a : ndarray)
| LInt (z : Z)
| LBool (b : bool)
| LStr (s : string).

(** Nested Python values: tuples, lists and dicts over leaves.  A dict is
    kept as its items in insertion order. *)
Unset Elimination Schemes.
Inductive nest :=
| Leaf (x : leaf)
| NTuple (xs : list nest)
| NList (xs : list nest)
| NDict (kvs : list (string * nest)).
Set Elimination Schemes.

Section nest_ind.
Variable P : nest → Prop.
Hypothesis P_leaf : ∀ x, P (Leaf x).
Hypothesis P_tuple : ∀ xs, Forall P xs → P (NTuple xs).
Hypothesis P_list : ∀ xs, Forall P xs → P (NList xs).
Hypothesis P_dict : ∀ kvs, Forall (λ kv, P kv.2) kvs → P (NDict kvs).

Fixpoint nest_ind (s : nest) : P s :=
  match s with
  | Leaf x => P_leaf x
  | NTuple xs =>
      P_tuple xs ((fix go l : Forall P l :=
        match l with
        | [] => Forall_nil_2 P
        | y :: l' => Forall_cons_2 P y l' (nest_ind y) (go l')
        end) xs)
  | NList xs =>
      P_list xs ((fix go l : Forall P l :=
        match l with
        | [] => Forall_nil_2 P
        | y :: l' => Forall_cons_2 P y l' (nest_ind y) (go l')
        end) xs)
  | NDict kvs =>
      P_dict kvs ((fix go l : Forall (λ kv, P kv.2) l :=
        match l with
        | [] => Forall_nil_2 _
        | kv :: l' => Forall_cons_2 (λ kv, P kv.2) kv l' (nest_ind kv.2) (go l')
        end) kvs)
  end.
End nest_ind.

Definition is_tensor_leaf (x : leaf) : bool :=
  (* isinstance(var, (framework.Variable, core.VarBase)) *)
  match x with LVariable _ | LVarBase _ => true | _ => false end.

(** ** paddle.fluid.layers.utils *)

(** Modelled from the spec: [flatten] of [paddle.fluid.layers.utils], which
    is imported by this file but defined elsewhere.  "Deterministic
    depth-first traversal"; "leaf order is insertion order of a depth-first
    traversal"; a value that is not a container flattens to itself alone. *)
Fixpoint flatten (s : nest) : list leaf :=
  match s with
  | Leaf x => [x]
  | NTuple xs => flat_map flatten xs
  | NList xs => flat_map flatten xs
  | NDict kvs => flat_map (λ kv, flatten kv.2) kvs
  end.

(** Modelled from the spec: the traversal behind [pack_sequence_as] of
    [paddle.fluid.layers.utils] (defined elsewhere).  It "rebuilds a
    structure isomorphic to the template with leaves replaced
    positionally": the template is walked in [flatten]'s order and every
    leaf takes the next value; the unused values are returned.  The values
    are leaves, as in any sequence that [flatten] has produced. *)
Fixpoint pack (s : nest) (flat : list leaf) : option (nest * list leaf) :=
  match s with
  | Leaf _ =>
      match flat with
      | v :: rest => Some (Leaf v, rest)
      | [] => None
      end
  | NTuple xs =>
      match (fix go (l : list nest) (flat : list leaf) :=
               match l with
               | [] => Some ([], flat)
               | y :: l' =>
                   match pack y flat with
                   | Some (y', flat') =>
                       match go l' flat' with
                       | Some (ys, rest) => Some (y' :: ys, rest)
                       | None => None
                       end
                   | None => None
                   end
               end) xs flat with
      | Some (ys, rest) => Some (NTuple ys, rest)
      | None => None
      end
  | NList xs =>
      match (fix go (l : list nest) (flat : list leaf) :=
               match l with
               | [] => Some ([], flat)
               | y :: l' =>
                   match pack y flat with
                   | Some (y', flat') =>
                       match go l' flat' with
                       | Some (ys, rest) => Some (y' :: ys, rest)
                       | None => None
                       end
                   | None => None
                   end
               end) xs flat with
      | Some (ys, rest) => Some (NList ys, rest)
      | None => None
      end
  | NDict kvs =>
      match (fix go (l : list (string * nest)) (flat : list leaf) :=
               match l with
               | [] => Some ([], flat)
               | kv :: l' =>
                   match pack kv.2 flat with
                   | Some (y', flat') =>
                       match go l' flat' with
                       | Some (ys, rest) => Some ((kv.1, y') :: ys, rest)
                       | None => None
                       end
                   | None => None
                   end
               end) kvs flat with
      | Some (ys, rest) => Some (NDict ys, rest)
      | None => None
      end
  end.

(** The two list walks of [pack], named so that lemmas can mention them. *)
Fixpoint pack_items (l : list nest) (flat : list leaf)
  : option (list nest * list leaf) :=
  match l with
  | [] => Some ([], flat)
  | y :: l' =>
      match pack y flat with
      | Some (y', flat') =>
          match pack_items l' flat' with
          | Some (ys, rest) => Some (y' :: ys, rest)
          | None => None
          end
      | None => None
      end
  end.

Fixpoint pack_values (l : list (string * nest)) (flat : list leaf)
  : option (list (string * nest) * list leaf) :=
  match l with
  | [] => Some ([], flat)
  | kv :: l' =>
      match pack kv.2 flat with
      | Some (y', flat') =>
          match pack_values l' flat' with
          | Some (ys, rest) => Some ((kv.1, y') :: ys, rest)
          | None => None
          end
      | None => None
      end
  end.

(** Modelled from the spec: [pack_sequence_as] of
    [paddle.fluid.layers.utils] (defined elsewhere): an error when the
    number of values differs from the template's leaf count, the rebuilt
    structure otherwise. *)
Definition pack_sequence_as (structure : nest) (flat_sequence : list leaf)
  : result nest :=
  if bool_decide (length (flatten structure) = length flat_sequence) then
    match pack structure flat_sequence with
    | Some (packed, _) => Ok packed
    | None => Raise ValueError_pack
    end
  else Raise ValueError_pack.

(** Two nests have the same composition: the same containers, of the same
    kind and length, with the same dict keys; leaves are not compared. *)
Fixpoint same_structure (s t : nest) : bool :=
  match s, t with
  | Leaf _, Leaf _ => true
  | NTuple xs, NTuple ys =>
      (fix go (l l' : list nest) : bool :=
         match l, l' with
         | [], [] => true
         | x :: r, y :: r' => same_structure x y && go r r'
         | _, _ => false
         end) xs ys
  | NList xs, NList ys =>
      (fix go (l l' : list nest) : bool :=
         match l, l' with
         | [], [] => true
         | x :: r, y :: r' => same_structure x y && go r r'
         | _, _ => false
         end) xs ys
  | NDict kvs, NDict kws =>
      (fix go (l l' : list (string * nest)) : bool :=
         match l, l' with
         | [], [] => true
         | kv :: r, kw :: r' =>
             bool_decide (kv.1 = kw.1) && same_structure kv.2 kw.2 && go r r'
         | _, _ => false
         end) kvs kws
  | _, _ => false
  end.

(** ** NestSequence *)

Record NestSequence := mkNestSequence {
  raw_input : nest; (* self.__raw_input *)
  var_ids : list nat (* self.__var_ids *)
}.

Definition tolist_raw (raw : nest) : list leaf := flatten raw.

(** [_get_var_ids]: the loop over [enumerate(self.tolist())], with the
    running index and the list built so far. *)
Fixpoint get_var_ids_loop (idx : nat) (l : list leaf) (var_ids : list nat)
  : list nat :=
  match l with
  | [] => var_ids
  | var :: rest =>
      if is_tensor_leaf var
      then get_var_ids_loop (S idx) rest (var_ids ++ [idx])
      else get_var_ids_loop (S idx) rest var_ids
  end.

Definition _get_var_ids (raw : nest) : list nat :=
  get_var_ids_loop 0 (tolist_raw raw) [].

Definition NestSequence_init (raw : nest) : NestSequence :=
  {| raw_input := raw; var_ids := _get_var_ids raw |}.

Definition tolist (self : NestSequence) : list leaf :=
  flatten (raw_input self).

Definition restore (self : NestSequence) (value_list : list leaf)
  : result nest :=
  if bool_decide (length (tolist self) = length value_list)
  then pack_sequence_as (raw_input self) value_list
  else Raise AssertionError.

(** [self[item]] *)
Definition getitem (self : NestSequence) (item : nat) : result leaf :=
  match tolist self !! item with
  | Some x => Ok x
  | None => Raise IndexError
  end.


(** The list walk of [same_structure]. *)
Fixpoint same_structure_items (l l' : list nest) : bool :=
  match l, l' with
  | [], [] => true
  | x :: r, y :: r' => same_structure x y && same_structure_items r r'
  | _, _ => false
  end.

Fixpoint same_structure_values (l l' : list (string * nest)) : bool :=
  match l, l' with
  | [], [] => true
  | kv :: r, kw :: r' =>
      bool_decide (kv.1 = kw.1) && same_structure kv.2 kw.2
      && same_structure_values r r'
  | _, _ => false
  end.

(** ** Sentinel filtering *)

Definition _is_no_value (var : nest) : bool :=
  match var with
  | Leaf (LVarBase t) =>
      (* var.shape == [1] and var.numpy()[0] == RETURN_NO_VALUE_MAGIC_NUM;
         a tensor of shape [1] holds one element *)
      bool_decide (shape t = [1%Z])
      && match numpy t !! 0 with Some x => is_magic x | None => false end
  | _ => false
  end.

(** [var for var in out_vars if not self._is_no_value(var)] *)
Fixpoint without_no_value (out_vars : list nest) : list nest :=
  match out_vars with
  | [] => []
  | var :: rest =>
      if negb (_is_no_value var) then var :: without_no_value rest
      else without_no_value rest
  end.

(** The part of [_remove_no_value] shared by the tuple and the list branch;
    [container] rebuilds the kind of [out_vars] around [res]. *)
Definition remove_from_sequence (container : list nest → nest)
    (out_vars : list nest) : nest :=
  let res := without_no_value out_vars in
  (* len(out_vars) > len(res) *)
  let has_removed := bool_decide (length res < length out_vars) in
  if bool_decide (length res = 0) && has_removed then Leaf LNone
  else if bool_decide (length res = 1) && has_removed then
    match res with r0 :: _ => r0 | [] => Leaf LNone end
  else container res.

Definition _remove_no_value (out_vars : nest) : nest :=
  match out_vars with
  | Leaf (LVarBase _) =>
      if _is_no_value out_vars then Leaf LNone else out_vars
  | NTuple xs => remove_from_sequence NTuple xs
  | NList xs => remove_from_sequence NList xs
  | _ => out_vars
  end.

(** ** valid_vars *)

(** [core.VarBase(value=[1], name='Fake_var', place=...)] *)
Definition Fake_var : VarBase :=
  {| vb_name := "Fake_var"; vb_dtype := INT64; shape := [1%Z];
     numpy := [one]; vb_type := LOD_TENSOR; vb_persistable := false;
     stop_gradient := true; grad_type := LOD_TENSOR |}.

Definition valid_vars (vars : list VarBase) : list VarBase :=
  match vars with
  | [] => [Fake_var]
  | _ :: _ => vars
  end.

(** ** Parameter pruning *)

(** The innermost loop of [_prune_unused_params]: [true] when it leaves
    through [break] with [found_param] set. *)
Fixpoint prune_ops_loop (name : string) (l : list Operator) : bool :=
  match l with
  | [] => false
  | op :: rest =>
      if bool_decide (name ∈ input_arg_names op)
         || bool_decide (name ∈ output_arg_names op)
      then true
      else prune_ops_loop name rest
  end.

Fixpoint prune_blocks_loop (name : string) (l : list Block) : bool :=
  match l with
  | [] => false
  | block :: rest =>
      if prune_ops_loop name (ops block) then true
      else prune_blocks_loop name rest
  end.

Fixpoint prune_params_loop (params : list VarBase) (program : Program)
    (required_params : list VarBase) : list VarBase :=
  match params with
  | [] => required_params
  | param :: rest =>
      if prune_blocks_loop (vb_name param) (blocks program)
      then prune_params_loop rest program (required_params ++ [param])
      else prune_params_loop rest program required_params
  end.

(** The value that [_prune_unused_params] stores in [self._params]. *)
Definition _prune_unused_params (params : list VarBase) (program : Program)
  : list VarBase :=
  prune_params_loop params program [].

(** [name] is an input or output argument of some operator of some block. *)
Definition referenced (program : Program) (name : string) : Prop :=
  Exists (λ block,
    Exists (λ op, name ∈ input_arg_names op ∨ name ∈ output_arg_names op)
           (ops block))
    (blocks program).

#[global] Instance referenced_dec program name :
  Decision (referenced program name).
Proof. unfold referenced. apply _. Defined.

(** ** Parameter check *)

(** The [parameters] argument of the constructor. *)
Inductive params_arg :=
| ParamsSeq (entries : list nest) (* a list or a tuple *)
| ParamsOther. (* anything else *)

(** First loop of [_check_params_all_inited]. *)
Fixpoint check_entries_loop (i : nat) (entries : list nest)
    (names : gset string) : result (gset string) :=
  match entries with
  | [] => Ok names
  | Leaf (LVarBase t) :: rest =>
      check_entries_loop (S i) rest (names ∪ {[vb_name t]})
  | _ :: _ => Raise (TypeError_param_entry i)
  end.

(** Second loop: the items of one block. *)
Fixpoint check_vars_loop (l : list (string * FVariable))
    (names : gset string) : result unit :=
  match l with
  | [] => Ok tt
  | (name, var) :: rest =>
      if is_parameter var then
        if bool_decide (name ∈ names) then check_vars_loop rest names
        else Raise (ValueError_param_created name)
      else check_vars_loop rest names
  end.

Fixpoint check_blocks_loop (l : list Block) (names : gset string)
  : result unit :=
  match l with
  | [] => Ok tt
  | block :: rest =>
      match check_vars_loop (vars block) names with
      | Ok _ => check_blocks_loop rest names
      | Raise e => Raise e
      end
  end.

Definition _check_params_all_inited (params : params_arg)
    (main_program : Program) : result unit :=
  match params with
  | ParamsOther => Raise TypeError_params
  | ParamsSeq entries =>
      match check_entries_loop 0 entries ∅ with
      | Raise e => Raise e
      | Ok param_and_buffer_names_set =>
          check_blocks_loop (blocks main_program) param_and_buffer_names_set
      end
  end.

(** ** Tensor positions *)

(** The indices, counted from [idx], of the tensor leaves of [l]. *)
Fixpoint positions (idx : nat) (l : list leaf) : list nat :=
  match l with
  | [] => []
  | x :: rest =>
      if is_tensor_leaf x then idx :: positions (S idx) rest
      else positions (S idx) rest
  end.

(** [l] with its tensor leaves replaced, in order, by the tensors
    [out_vars]; the other leaves stay. *)
Fixpoint scatter (l : list leaf) (out_vars : list VarBase) : list leaf :=
  match l with
  | [] => []
  | x :: rest =>
      if is_tensor_leaf x then
        match out_vars with
        | v :: vs => LVarBase v :: scatter rest vs
        | [] => x :: scatter rest []
        end
      else x :: scatter rest out_vars
  end.

(** What [pack] does with enough values: it takes exactly the first
    [length (flatten s)] of them. *)
Definition packs_well (s : nest) : Prop :=
  ∀ vs rest, length vs = length (flatten s) →
    ∃ r, pack s (vs ++ rest) = Some (r, rest)
         ∧ same_structure s r = true ∧ flatten r = vs.

(** [pack] gives a template back when it is fed the template's own
    leaves. *)
Definition packs_itself (s : nest) : Prop :=
  ∀ rest, pack s (flatten s ++ rest) = Some (s, rest).

End Values.

(** ** Collaborators *)

Section Calls.
Context {D : TensorData}.

(** The arguments of one [trace_op(type='run_program', ...)] call. *)
Record RunProgramCall := mkRunProgramCall {
  X : list VarBase;
  Params : list VarBase;
  Out : list VarBase;
  OutScope : VarBase;
  DOut : list VarBase;
  call_global_block : Block;
  start_op_index : nat;
  end_op_index : nat;
  is_test : bool
}.

(** What one run of the interpreter leaves behind.  The operator is given
    the tensors of ['Out'] and ['DOut'] as its outputs and writes them in
    place: tensor number [k] of the list, [t] before the run, is
    [Out_after k t] (resp. [DOut_after k t]) after it.  The tensors of
    ['X'] and ['Params'] are its inputs. *)
Record Written := mkWritten {
  Out_after : nat → VarBase → VarBase;
  DOut_after : nat → VarBase → VarBase
}.

End Calls.

(** The services this file calls and does not define.
    - [block_var b name]: [b.var(name)] of the framework;
    - [gradients program targets]: the program after
      [backward.gradients(targets=targets, inputs=[])] has appended the
      backward operators to it;
    - [run_program call]: what [trace_op(type='run_program', ...)] does
      with the arguments [call]: it raises, or it returns after having
      written the tensors handed to it as outputs;
    - [grad_var_suffix]: [core.grad_var_suffix()];
    - [py_len x], [py_getitem0 x]: [len(x)] and [x[0]] for a value [x] that
      is neither a container nor [None].
    The first two are functions: a lookup or a call for gradients that
    raises is not part of this model. *)
Class Framework {D : TensorData} := {
  block_var : Block → string → FVariable;
  gradients : Program → list FVariable → Program;
  run_program : RunProgramCall → result Written;
  grad_var_suffix : string;
  py_len : leaf → result nat;
  py_getitem0 : leaf → result nest
}.

Section Layer.
Context {D : TensorData} {F : Framework}.

(** ** Program variants *)

Definition set_is_test (is_test : bool) (op : Operator) : Operator :=
  (* if op.has_attr('is_test'): op._set_attr('is_test', is_test) *)
  match attrs op !! "is_test" with
  | Some _ =>
      {| op_type := op_type op; input_arg_names := input_arg_names op;
         output_arg_names := output_arg_names op;
         attrs := <["is_test" := ABool is_test]> (attrs op) |}
  | None => op
  end.

Definition change_block (is_test : bool) (block : Block) : Block :=
  {| ops := set_is_test is_test <$> ops block; vars := vars block |}.

Definition _change_is_test_status (program : Program) (is_test : bool)
  : Program :=
  {| global_block := change_block is_test (global_block program);
     sub_blocks := change_block is_test <$> sub_blocks program |}.

(** Modelled from the spec: [Program.clone] of the framework (defined
    elsewhere).  Every variant is "a full duplicate of the base graph"; the
    inference variant ([for_test=True]) has "is_test forced true on every
    operator that declares that attribute (all other attributes and the
    operator list unchanged)". *)
Definition Program_clone (program : Program) (for_test : bool) : Program :=
  if for_test then _change_is_test_status program true else program.

(** Modelled from the spec: [find_var] of a block description (defined
    elsewhere): the Variable of that name when it "exists in the new
    graph", [None] otherwise. *)
Fixpoint find_var (l : list (string * FVariable)) (name : string)
  : option FVariable :=
  match l with
  | [] => None
  | (n, v) :: rest => if bool_decide (n = name) then Some v else find_var rest name
  end.

(** ** The instance *)

Record PartialProgramLayer := mkLayer {
  _inputs : NestSequence;
  _outputs : NestSequence;
  _params : list VarBase;
  _origin_main_program : Program;
  _double_grads : list VarBase;
  training : bool;
  (** the instance attributes stored by [LazyInitialized.__get__]; an
      attribute found here hides the descriptor of the same name *)
  __dict__ : gmap string Program
}.

Inductive event :=
| EvFunction (name : string) (* LazyInitialized.__get__ ran self.function *)
| EvGradients (targets : list FVariable) (* backward.gradients was called *)
| EvRunProgram (call : RunProgramCall). (* trace_op was called *)

(** The instance and the calls made so far, oldest first. *)
Record World := mkWorld {
  self : PartialProgramLayer;
  trace : list event
}.

Definition M (A : Type) : Type := World → A * World.

Definition ret {A} (a : A) : M A := λ w, (a, w).

Definition bind {A B} (m : M A) (k : A → M B) : M B :=
  λ w, let '(a, w') := m w in k a w'.

Notation "'let*' x := m 'in' k" := (bind m (λ x, k))
  (at level 10, x name, m at level 100, k at level 200).

Definition get_self : M PartialProgramLayer := λ w, (self w, w).

Definition emit (e : event) : M unit :=
  λ w, (tt, {| self := self w; trace := trace w ++ [e] |}).

(** Assignments to the attributes of the instance. *)
Definition with_params (params : list VarBase) (s : PartialProgramLayer)
  : PartialProgramLayer :=
  {| _inputs := _inputs s; _outputs := _outputs s; _params := params;
     _origin_main_program := _origin_main_program s;
     _double_grads := _double_grads s; training := training s;
     __dict__ := __dict__ s |}.

Definition with_dict (d : gmap string Program) (s : PartialProgramLayer)
  : PartialProgramLayer :=
  {| _inputs := _inputs s; _outputs := _outputs s; _params := _params s;
     _origin_main_program := _origin_main_program s;
     _double_grads := _double_grads s; training := training s;
     __dict__ := d |}.

Definition with_training (b : bool) (s : PartialProgramLayer)
  : PartialProgramLayer :=
  {| _inputs := _inputs s; _outputs := _outputs s; _params := _params s;
     _origin_main_program := _origin_main_program s;
     _double_grads := _double_grads s; training := b;
     __dict__ := __dict__ s |}.

Definition with_double_grads (double_grads : list VarBase)
    (s : PartialProgramLayer) : PartialProgramLayer :=
  {| _inputs := _inputs s; _outputs := _outputs s; _params := _params s;
     _origin_main_program := _origin_main_program s;
     _double_grads := double_grads; training := training s;
     __dict__ := __dict__ s |}.

Definition set_params (params : list VarBase) : M unit :=
  λ w, (tt, {| self := with_params params (self w); trace := trace w |}).

(** The tensors of [self._double_grads] written where they stand. *)
Definition set_double_grads (double_grads : list VarBase) : M unit :=
  λ w, (tt, {| self := with_double_grads double_grads (self w);
               trace := trace w |}).

(** [setattr(instance, name, val)] for a value that is a Program: it is
    neither a parameter, a sub-layer nor a tensor, so it lands in the
    instance dictionary. *)
Definition setattr (name : string) (val : Program) : M unit :=
  λ w, (tt, {| self := with_dict (<[name := val]> (__dict__ (self w))) (self w);
               trace := trace w |}).

(** [instance.training = b], done by the callers of this file. *)
Definition set_training (b : bool) : M unit :=
  λ w, (tt, {| self := with_training b (self w); trace := trace w |}).

(** ** LazyInitialized *)

(** [LazyInitialized.__get__]: run the function, store its value on the
    instance under the function's name. *)
Definition LazyInitialized_get (name : string) (function : M Program)
  : M Program :=
  let* _ := emit (EvFunction name) in
  let* val := function in
  let* _ := setattr name val in
  ret val.

(** Reading [instance.name] where the class holds [LazyInitialized]: the
    descriptor defines [__get__] only, so an entry of the instance
    dictionary comes first. *)
Definition getattr_lazy (name : string) (function : M Program) : M Program :=
  λ w, match __dict__ (self w) !! name with
       | Some val => (val, w)
       | None => LazyInitialized_get name function w
       end.

Definition _clone_for_test (main_program : Program) : Program :=
  Program_clone main_program true.

Definition _infer_program_function : M Program :=
  let* s := get_self in
  ret (_clone_for_test (_origin_main_program s)).

(** The loop of [_append_backward_desc] that collects [targets]. *)
Fixpoint targets_loop (program : Program) (outs : list leaf)
    (targets : list FVariable) : list FVariable :=
  match outs with
  | [] => targets
  | LVariable out :: rest =>
      targets_loop program rest
        (targets ++ [block_var (global_block program) (var_name out)])
  | _ :: rest => targets_loop program rest targets
  end.

Definition _append_backward_desc (main_program : Program) : M Program :=
  let* s := get_self in
  let program := _change_is_test_status (Program_clone main_program false) false in
  let targets := targets_loop program (tolist (_outputs s)) [] in
  match targets, _params s with
  | _ :: _, _ :: _ =>
      let* _ := emit (EvGradients targets) in
      ret (gradients program targets)
  | _, _ => ret program
  end.

(** One iteration of [_set_grad_type]. *)
Definition set_grad_type_of (train_program : Program) (param : VarBase)
  : VarBase :=
  let grad_name := vb_name param +:+ grad_var_suffix in
  match find_var (vars (global_block train_program)) grad_name with
  | None => param
  | Some grad_var =>
      {| vb_name := vb_name param; vb_dtype := vb_dtype param;
         shape := shape param; numpy := numpy param;
         vb_type := vb_type param; vb_persistable := vb_persistable param;
         stop_gradient := stop_gradient param;
         grad_type := desc_type (desc grad_var) |}
  end.

Definition _set_grad_type (params : list VarBase) (train_program : Program)
  : M unit :=
  set_params (set_grad_type_of train_program <$> params).

Definition _train_program_function : M Program :=
  let* s := get_self in
  let* train_program := _append_backward_desc (_origin_main_program s) in
  let* s' := get_self in
  let* _ := _set_grad_type (_params s') train_program in
  ret train_program.

Definition _infer_program : M Program :=
  getattr_lazy "_infer_program" _infer_program_function.

Definition _train_program : M Program :=
  getattr_lazy "_train_program" _train_program_function.

(** The [program] property. *)
Definition program : M Program :=
  let* s := get_self in
  if training s then _train_program else _infer_program.

(** ** Construction *)

(** [core.VarBase(dtype, shape, name, type, persistable)]: a tensor without
    data. *)
Definition VarBase_of_desc (d : VarDesc) (persistable : bool) : VarBase :=
  {| vb_name := desc_name d; vb_dtype := desc_dtype d; shape := desc_shape d;
     numpy := []; vb_type := desc_type d; vb_persistable := persistable;
     stop_gradient := true; grad_type := LOD_TENSOR |}.

(** [sub in s] for two strings. *)
Fixpoint str_in (sub s : string) : bool :=
  String.prefix sub s
  || match s with
     | EmptyString => false
     | String _ rest => str_in sub rest
     end.

Fixpoint double_grads_vars (l : list (string * FVariable))
    (double_grads : list VarBase) : list VarBase :=
  match l with
  | [] => double_grads
  | (name, var) :: rest =>
      if str_in "@GRAD" name
      then double_grads_vars rest
             (double_grads ++ [VarBase_of_desc (desc var) false])
      else double_grads_vars rest double_grads
  end.

Fixpoint double_grads_blocks (l : list Block) (double_grads : list VarBase)
  : list VarBase :=
  match l with
  | [] => double_grads
  | block :: rest =>
      double_grads_blocks rest (double_grads_vars (vars block) double_grads)
  end.

Definition _get_double_grads (program : Program) : list VarBase :=
  double_grads_blocks (blocks program) [].

(** The entries of a checked parameter list, as tensors. *)
Definition as_VarBase (p : nest) : option VarBase :=
  match p with
  | Leaf (LVarBase t) => Some t
  | _ => None
  end.

(** [PartialProgramLayer.__init__]; [_verify_program] is the check followed
    by the pruning.  The warning of [NestSequence(outputs, need_check=True)]
    has no effect on the instance and is left out. *)
Definition __init__ (main_program : Program) (inputs outputs : nest)
    (parameters : option params_arg) : result PartialProgramLayer :=
  let params := default (ParamsSeq []) parameters in
  match _check_params_all_inited params main_program with
  | Raise e => Raise e
  | Ok _ =>
      let entries := match params with ParamsSeq l => l | ParamsOther => [] end in
      Ok {| _inputs := NestSequence_init inputs;
            _outputs := NestSequence_init outputs;
            _params := _prune_unused_params (omap as_VarBase entries) main_program;
            _origin_main_program := main_program;
            _double_grads := _get_double_grads main_program;
            training := true;
            __dict__ := ∅ |}
  end.

(** ** One call *)

(** [self._inputs[i].desc.name()] *)
Definition input_name (s : PartialProgramLayer) (i : nat) : result string :=
  match getitem (_inputs s) i with
  | Raise e => Raise e
  | Ok (LVariable v) => Ok (var_name v)
  | Ok _ => Raise AttributeError
  end.

(** [var.name = name].  A tensor made by [core.VarBase(...)] or by
    [paddle.to_tensor] is new, and naming it touches nothing else.  A
    VarBase that requires gradient is the caller's own object and is named
    where it stands.  Tensors are values here: the model follows the
    instance and what a call hands to the interpreter, and takes the
    tensors among the inputs of a call to be objects of their own, none of
    them twice among the inputs and none of them a tensor that the
    instance holds. *)
Definition rename (t : VarBase) (name : string) : VarBase :=
  {| vb_name := name; vb_dtype := vb_dtype t; shape := shape t;
     numpy := numpy t; vb_type := vb_type t;
     vb_persistable := vb_persistable t; stop_gradient := stop_gradient t;
     grad_type := grad_type t |}.

(** [core.VarBase(value=value, name=name, persistable=False, ...)] *)
Definition VarBase_of_ndarray (a : ndarray) (name : string) : VarBase :=
  {| vb_name := name; vb_dtype := nd_dtype a; shape := nd_shape a;
     numpy := nd_data a; vb_type := LOD_TENSOR; vb_persistable := false;
     stop_gradient := true; grad_type := LOD_TENSOR |}.

(** [paddle.to_tensor(value, dtype=value.dtype, place=...,
    stop_gradient=True)]: a copy on the expected place. *)
Definition to_tensor (value : VarBase) : VarBase :=
  {| vb_name := vb_name value; vb_dtype := vb_dtype value;
     shape := shape value; numpy := numpy value; vb_type := vb_type value;
     vb_persistable := false; stop_gradient := true;
     grad_type := grad_type value |}.

(** First loop of [_prepare]. *)
Fixpoint prepare_inputs_loop (s : PartialProgramLayer) (i : nat)
    (flatten_inputs : list leaf) (input_vars : list VarBase)
  : result (list VarBase) :=
  match flatten_inputs with
  | [] => Ok input_vars
  | LNdarray value :: rest =>
      match input_name s i with
      | Raise e => Raise e
      | Ok name =>
          prepare_inputs_loop s (S i) rest
            (input_vars ++ [VarBase_of_ndarray value name])
      end
  | LVarBase value :: rest =>
      let var := if stop_gradient value then to_tensor value else value in
      match input_name s i with
      | Raise e => Raise e
      | Ok name =>
          prepare_inputs_loop s (S i) rest (input_vars ++ [rename var name])
      end
  | _ :: rest => prepare_inputs_loop s (S i) rest input_vars
  end.

(** Second loop of [_prepare]. *)
Fixpoint prepare_outputs_loop (s : PartialProgramLayer) (ids : list nat)
    (out_vars : list VarBase) : result (list VarBase) :=
  match ids with
  | [] => Ok out_vars
  | idx :: rest =>
      match getitem (_outputs s) idx with
      | Raise e => Raise e
      | Ok (LVariable var) =>
          prepare_outputs_loop s rest
            (out_vars ++ [VarBase_of_desc (desc var) false])
      | Ok _ => Raise AssertionError
      end
  end.

Definition tmp_scope_vec : VarBase :=
  {| vb_name := "program_out_scope"; vb_dtype := FP32; shape := [];
     numpy := []; vb_type := STEP_SCOPES; vb_persistable := true;
     stop_gradient := true; grad_type := LOD_TENSOR |}.

Definition _prepare (s : PartialProgramLayer) (inputs : nest)
  : result (list VarBase * list VarBase * VarBase) :=
  match inputs with
  | NTuple _ | NList _ =>
      match prepare_inputs_loop s 0 (flatten inputs) [] with
      | Raise e => Raise e
      | Ok input_vars =>
          match prepare_outputs_loop s (var_ids (_outputs s)) [] with
          | Raise e => Raise e
          | Ok out_vars => Ok (input_vars, out_vars, tmp_scope_vec)
          end
      end
  | _ => Raise AssertionError
  end.

(** The loop of [_restore_out]: [flatten_outputs[idx] = out_vars[i]]. *)
Fixpoint restore_out_loop (i : nat) (ids : list nat) (out_vars : list VarBase)
    (flatten_outputs : list leaf) : result (list leaf) :=
  match ids with
  | [] => Ok flatten_outputs
  | idx :: rest =>
      match out_vars !! i with
      | None => Raise IndexError
      | Some v =>
          if bool_decide (idx < length flatten_outputs)
          then restore_out_loop (S i) rest out_vars
                 (<[idx := LVarBase v]> flatten_outputs)
          else Raise IndexError
      end
  end.

(** [if outs is not None and len(outs) == 1: outs = outs[0]] *)
Definition unwrap_single (outs : nest) : result nest :=
  match outs with
  | Leaf LNone => Ok outs
  | Leaf x =>
      match py_len x with
      | Raise e => Raise e
      | Ok n => if bool_decide (n = 1) then py_getitem0 x else Ok outs
      end
  | NTuple xs | NList xs =>
      if bool_decide (length xs = 1) then
        match xs !! 0 with Some x => Ok x | None => Raise IndexError end
      else Ok outs
  | NDict kvs =>
      (* the keys are strings, so [outs[0]] finds nothing *)
      if bool_decide (length kvs = 1) then Raise KeyError else Ok outs
  end.

Definition _restore_out (s : PartialProgramLayer) (out_vars : list VarBase)
  : result nest :=
  match restore_out_loop 0 (var_ids (_outputs s)) out_vars
          (tolist (_outputs s)) with
  | Raise e => Raise e
  | Ok flatten_outputs =>
      match restore (_outputs s) flatten_outputs with
      | Raise e => Raise e
      | Ok outs => unwrap_single outs
      end
  end.

(** [forward].  The interpreter fills the tensors of [out_vars] and of
    [self._double_grads] in place: [valid_vars] hands it those very lists
    unless they are empty.  The parameters given to it are the objects of
    [self._params], which [_train_program] may have updated (their
    gradient type) while the arguments were being evaluated.  An exception
    raised by the interpreter leaves [forward] as it is. *)
Definition forward (inputs : nest) : M (result nest) :=
  let* s := get_self in
  match _prepare s inputs with
  | Raise e => ret (Raise e)
  | Ok (in_vars, out_vars, scope_vec) =>
      let* prog := program in
      let* infer := _infer_program in
      let* s' := get_self in
      let call :=
        {| X := valid_vars in_vars;
           Params := valid_vars (_params s');
           Out := valid_vars out_vars;
           OutScope := scope_vec;
           DOut := valid_vars (_double_grads s');
           call_global_block := global_block prog;
           start_op_index := 0;
           end_op_index := op_size (global_block infer);
           is_test := negb (training s') |} in
      let* _ := emit (EvRunProgram call) in
      match run_program call with
      | Raise e => ret (Raise e)
      | Ok written =>
          let* _ :=
            set_double_grads
              (imap (DOut_after written) (_double_grads s')) in
          let out_vars' := imap (Out_after written) out_vars in
          match _restore_out s' out_vars' with
          | Raise e => ret (Raise e)
          | Ok restored_nest_out =>
              ret (Ok (_remove_no_value restored_nest_out))
          end
      end
  end.

(** The instance once the interpreter has run [call]: [valid_vars] hands
    it the very tensors of [self._double_grads] as ['DOut'] unless there
    are none, and it writes them in place.  Nothing is written when it
    raises. *)
Definition after_call (call : RunProgramCall) (s : PartialProgramLayer)
  : PartialProgramLayer :=
  match run_program call with
  | Ok written =>
      with_double_grads (imap (DOut_after written) (_double_grads s)) s
  | Raise _ => s
  end.

(** ** Lifetime of an instance *)

Inductive action :=
| Forward (inputs : nest)
| SetTraining (b : bool).

Definition step (a : action) (w : World) : World :=
  match a with
  | Forward inputs => (forward inputs w).2
  | SetTraining b => (set_training b w).2
  end.

Definition run (acts : list action) (w : World) : World :=
  foldl (λ w a, step a w) w acts.

Definition is_function_event (name : string) (e : event) : bool :=
  match e with
  | EvFunction n => bool_decide (n = name)
  | _ => false
  end.

Definition is_gradients_event (e : event) : bool :=
  match e with
  | EvGradients _ => true
  | _ => false
  end.

(** How often the function behind the lazy attribute [name] has run. *)
Definition function_runs (name : string) (tr : list event) : nat :=
  length (filter (λ e, is_function_event name e) tr).

(** How often [backward.gradients] has been called. *)
Definition gradients_calls (tr : list event) : nat :=
  length (filter (λ e, is_gradients_event e) tr).

(** The names of the supplied parameters. *)
Definition param_names (entries : list nest) : gset string :=
  list_to_set (vb_name <$> omap as_VarBase entries).

(** The graph defines a Variable of the Parameter class called [name] that
    is not among [names]. *)
Definition undeclared_parameter (G : Program) (names : gset string)
    (name : string) : Prop :=
  ∃ block var, block ∈ blocks G ∧ (name, var) ∈ vars block
               ∧ is_parameter var = true ∧ name ∉ names.

(** The lazy attributes and the trace agree: the function of an attribute
    has run once when the attribute is stored on the instance, and never
    otherwise. *)
Definition lazy_consistent (w : World) : Prop :=
  ∀ name, function_runs name (trace w)
          = match __dict__ (self w) !! name with Some _ => 1 | None => 0 end.

(** What one run of a function behind a lazy attribute may do: append
    gradient events to the trace and update the parameters one by one; the
    rest of the instance stays as it is. *)
Definition quiet (function : M Program) : Prop :=
  ∀ w, ∃ g extra,
    self (function w).2 = with_params (g <$> _params (self w)) (self w)
    ∧ trace (function w).2 = trace w ++ extra
    ∧ Forall (λ e, is_gradients_event e = true) extra.

End Layer.

(** * The rest of the file *)

Section Rest.
Context {D : TensorData}.

(** ** NestSequence._check_non_variable *)

(** [type(var)] for the values that are not tensors. *)
Inductive pytype := NoneType | ndarray_type | int_type | bool_type | str_type.

#[global] Instance pytype_eq_dec : EqDecision pytype.
Proof. solve_decision. Defined.

Definition type_of (x : leaf) : option pytype :=
  match x with
  | LNone => Some NoneType
  | LNdarray _ => Some ndarray_type
  | LInt _ => Some int_type
  | LBool _ => Some bool_type
  | LStr _ => Some str_type
  | LVariable _ | LVarBase _ => None
  end.

(** [warning_types.add(t)] on a set kept as a list without repetition; the
    order of the list carries no meaning. *)
Definition set_add (t : pytype) (warning_types : list pytype) : list pytype :=
  if bool_decide (t ∈ warning_types) then warning_types
  else warning_types ++ [t].

Fixpoint warning_types_loop (l : list leaf) (warning_types : list pytype)
  : list pytype :=
  match l with
  | [] => warning_types
  | var :: rest =>
      if negb (is_tensor_leaf var) then
        match type_of var with
        | Some t => warning_types_loop rest (set_add t warning_types)
        | None => warning_types_loop rest warning_types
        end
      else warning_types_loop rest warning_types
  end.

(** [_check_non_variable]: the types named by the warning, or [None] when
    no warning is given. *)
Definition _check_non_variable (self : NestSequence) (need_check : bool)
  : option (list pytype) :=
  if need_check then
    match warning_types_loop (tolist self) [] with
    | [] => None
    | warning_types => Some warning_types
    end
  else None.

(** ** _prepare: the values that become input tensors *)

(** [isinstance(value, np.ndarray)] or [isinstance(value, core.VarBase)] *)
Definition is_array_like (x : leaf) : bool :=
  match x with LNdarray _ | LVarBase _ => true | _ => false end.

(** The array-like leaves of [l] with their indices, counted from [i]. *)
Fixpoint indexed_arrays (i : nat) (l : list leaf) : list (nat * leaf) :=
  match l with
  | [] => []
  | x :: rest =>
      if is_array_like x then (i, x) :: indexed_arrays (S i) rest
      else indexed_arrays (S i) rest
  end.

Definition array_data (x : leaf) : list elem :=
  match x with
  | LNdarray a => nd_data a
  | LVarBase t => numpy t
  | _ => []
  end.

Definition array_shape (x : leaf) : list Z :=
  match x with
  | LNdarray a => nd_shape a
  | LVarBase t => shape t
  | _ => []
  end.

(** The gradient flag that a VarBase among the inputs comes with. *)
Definition array_stop_gradient (x : leaf) : option bool :=
  match x with
  | LVarBase t => Some (stop_gradient t)
  | _ => None
  end.

(** [isinstance(out, framework.Variable)] *)
Definition as_Variable (x : leaf) : option FVariable :=
  match x with
  | LVariable v => Some v
  | _ => None
  end.

(** [isinstance(value, core.VarBase) and not value.stop_gradient]: the
    value is passed on as it is, [var = value].  For any other array-like
    value a tensor is built anew: from an ndarray by [core.VarBase(...)],
    from a VarBase that requires no gradient by [paddle.to_tensor]. *)
Definition requires_gradient (x : leaf) : bool :=
  match x with
  | LVarBase t => negb (stop_gradient t)
  | _ => false
  end.

(** The tensor [v] that [_prepare] puts in its list for the array-like
    value [x] found at index [k] of the flattened inputs, [template] being
    the flattened input template: index [k] of the template holds a
    Variable; [v] has the data and shape of [x] and, when [x] is a
    VarBase, its gradient flag; and when [v] is built anew it is named
    after that Variable.  (A VarBase that requires gradient is given that
    name too, but as the caller's own object, which may be given another
    name later in the same loop when it stands among the inputs twice.) *)
Definition prepared (template : list leaf) (kx : nat * leaf) (v : VarBase)
  : Prop :=
  ∃ var, template !! kx.1 = Some (LVariable var)
         ∧ numpy v = array_data kx.2
         ∧ shape v = array_shape kx.2
         ∧ (∀ b, array_stop_gradient kx.2 = Some b → stop_gradient v = b)
         ∧ (requires_gradient kx.2 = false → vb_name v = var_name var).


(** The empty tensor [v] that [_prepare] makes for the recorded position
    [idx] of the flattened output template. *)
Definition placeholder (template : list leaf) (idx : nat) (v : VarBase)
  : Prop :=
  ∃ var, template !! idx = Some (LVariable var)
         ∧ v = VarBase_of_desc (desc var) false.

(** Two tensors that differ in their gradient type at most. *)
Definition same_but_grad_type (t t' : VarBase) : Prop :=
  vb_name t' = vb_name t ∧ vb_dtype t' = vb_dtype t ∧ shape t' = shape t
  ∧ numpy t' = numpy t ∧ vb_type t' = vb_type t
  ∧ vb_persistable t' = vb_persistable t
  ∧ stop_gradient t' = stop_gradient t.

End Rest.

(** ** _remove_op_call_stack *)

Definition remove_call_stack_op (op : Operator) : Operator :=
  (* if op.has_attr("op_callstack"): op._remove_attr("op_callstack") *)
  match attrs op !! "op_callstack" with
  | Some _ =>
      {| op_type := op_type op; input_arg_names := input_arg_names op;
         output_arg_names := output_arg_names op;
         attrs := delete "op_callstack" (attrs op) |}
  | None => op
  end.

Definition remove_call_stack_block (block : Block) : Block :=
  {| ops := remove_call_stack_op <$> ops block; vars := vars block |}.

Definition _remove_op_call_stack (main_program : Program) : Program :=
  {| global_block := remove_call_stack_block (global_block main_program);
     sub_blocks := remove_call_stack_block <$> sub_blocks main_program |}.

(** The two loops [for block in program.blocks: for op in block.ops] with
    a body that rewrites [op]. *)
Definition map_ops (f : Operator → Operator) (p : Program) : Program :=
  {| global_block :=
       {| ops := f <$> ops (global_block p); vars := vars (global_block p) |};
     sub_blocks :=
       (λ block, {| ops := f <$> ops block; vars := vars block |})
         <$> sub_blocks p |}.

(** What [f] sees of every operator, block by block. *)
Definition op_view {A} (f : Operator → A) (p : Program) : list (list A) :=
  (λ block, f <$> ops block) <$> blocks p.

Section RestLayer.
Context {D : TensorData} {F : Framework}.

(** Two states of one instance: templates, base program, double
    gradients are the same, and the parameters differ in their gradient
    types at most. *)
Definition same_layer (s s' : PartialProgramLayer) : Prop :=
  _inputs s' = _inputs s ∧ _outputs s' = _outputs s
  ∧ _origin_main_program s' = _origin_main_program s
  ∧ _double_grads s' = _double_grads s
  ∧ Forall2 same_but_grad_type (_params s) (_params s').


(** The gradient type that [_set_grad_type] leaves in [param]. *)
Definition grad_type_after (train_program : Program) (param : VarBase)
  : VarType :=
  match find_var (vars (global_block train_program))
          (vb_name param +:+ grad_var_suffix) with
  | Some grad_var => desc_type (desc grad_var)
  | None => grad_type param
  end.

(** The calls for gradients do not outnumber the runs of the function
    behind the training variant. *)
Definition gradients_bounded (w : World) : Prop :=
  gradients_calls (trace w) ≤ function_runs "_train_program" (trace w).

End RestLayer.

(** * A concrete instance *)

(** Integer tensor data, with the magic constant of [return_transformer]
    read as an integer. *)
Definition Z_data : TensorData :=
  {| elem := Z;
     is_magic := Z.eqb 1771130000000000000000000000;
     one := 1%Z |}.

Definition grad_op : Operator :=
  {| op_type := "mul_grad"; input_arg_names := ["y@GRAD"];
     output_arg_names := ["w@GRAD"]; attrs := ∅ |}.

Definition fill (t : @VarBase Z_data) : @VarBase Z_data :=
  @mkVarBase Z_data (vb_name t) (vb_dtype t) [1%Z] [5%Z] (vb_type t)
    (vb_persistable t) (stop_gradient t) (grad_type t).

(** A framework whose interpreter writes [5] into every tensor it is
    given as an output. *)
Definition toy_framework : @Framework Z_data :=
  {| block_var := λ b name,
       default (mkFVariable (mkVarDesc name FP32 [] LOD_TENSOR) false false)
               (find_var (vars b) name);
     gradients := λ p _,
       {| global_block :=
            {| ops := ops (global_block p) ++ [grad_op];
               vars := vars (global_block p) |};
          sub_blocks := sub_blocks p |};
     run_program := λ _,
       Ok {| Out_after := λ _ t, fill t; DOut_after := λ _ t, fill t |};
     grad_var_suffix := "@GRAD";
     py_len := λ _, Raise TypeError_len;
     py_getitem0 := λ _, Raise TypeError_len |}.

(** The same framework with an interpreter that fails. *)
Definition failing_framework : @Framework Z_data :=
  {| block_var := @block_var Z_data toy_framework;
     gradients := @gradients Z_data toy_framework;
     run_program := λ _, Raise (InterpreterError "run_program");
     grad_var_suffix := @grad_var_suffix Z_data toy_framework;
     py_len := @py_len Z_data toy_framework;
     py_getitem0 := @py_getitem0 Z_data toy_framework |}.

Definition var_x : FVariable :=
  mkFVariable (mkVarDesc "x" FP32 [1%Z] LOD_TENSOR) false false.
Definition var_y : FVariable :=
  mkFVariable (mkVarDesc "y" FP32 [1%Z] LOD_TENSOR) false false.
Definition var_w : FVariable :=
  mkFVariable (mkVarDesc "w" FP32 [1%Z] LOD_TENSOR) true true.
(** A persistable Variable that is not of the Parameter class. *)
Definition var_buf : FVariable :=
  mkFVariable (mkVarDesc "buf" FP32 [1%Z] LOD_TENSOR) true false.

Definition mul_op : Operator :=
  {| op_type := "mul"; input_arg_names := ["x"; "w"];
     output_arg_names := ["y"]; attrs := {["is_test" := ABool false]} |}.

(** [y = x * w] *)
Definition toy_program : Program :=
  {| global_block :=
       {| ops := [mul_op];
          vars := [("x", var_x); ("w", var_w); ("y", var_y)] |};
     sub_blocks := [] |}.

(** The same graph with a persistable buffer created inside it. *)
Definition buf_program : Program :=
  {| global_block :=
       {| ops := [mul_op];
          vars := [("x", var_x); ("buf", var_buf); ("y", var_y)] |};
     sub_blocks := [] |}.

Definition tensor (name : string) (data : Z) : @VarBase Z_data :=
  @mkVarBase Z_data name FP32 [1%Z] [data] LOD_TENSOR true false LOD_TENSOR.

Definition param_w : @VarBase Z_data := tensor "w" 3.
Definition param_b : @VarBase Z_data := tensor "b" 4.

Definition toy_inputs : @nest Z_data := NList [Leaf (LVariable var_x)].
Definition toy_outputs : @nest Z_data := NList [Leaf (LVariable var_y)].

Definition toy_feed : @nest Z_data :=
  NTuple [Leaf (LNdarray (@mkNdarray Z_data FP32 [1%Z] [2%Z]))].

(** The instance that the constructor builds from [toy_program] and the
    parameters [w] and [b]; [b] is pruned. *)
Definition toy_layer : @PartialProgramLayer Z_data :=
  {| _inputs := NestSequence_init toy_inputs;
     _outputs := NestSequence_init toy_outputs;
     _params := [param_w];
     _origin_main_program := toy_program;
     _double_grads := [];
     training := true;
     __dict__ := ∅ |}.

Definition toy_world : @World Z_data :=
  {| self := toy_layer; trace := [] |}.

Definition toy_nest : @nest Z_data :=
  NTuple [Leaf (LInt 1);
          NList [Leaf (LStr "a"); NDict [("k", Leaf LNone)]];
          Leaf (LBool true)].

Definition sentinel : @nest Z_data :=
  Leaf (LVarBase (tensor "s" 1771130000000000000000000000)).

Definition toy_actions : list (@action Z_data) :=
  [Forward toy_feed; SetTraining false; Forward toy_feed;
   SetTraining true; Forward toy_feed].

Definition no_param_world : @World Z_data :=
  {| self := with_params [] toy_layer; trace := [] |}.

(** ** More concrete values *)

Definition mixed_nest : @nest Z_data :=
  NTuple [Leaf (LInt 1); Leaf (LVariable var_x); Leaf (LVarBase param_w)].

Definition inference_world : @World Z_data :=
  {| self := with_training false toy_layer; trace := [] |}.

Definition inference_actions : list (@action Z_data) :=
  [Forward toy_feed; SetTraining false; Forward toy_feed].

Definition toy_array : @ndarray Z_data := @mkNdarray Z_data FP32 [1%Z] [2%Z].

(** * Properties *)

(** ** Flatten and restore *)

Section Codec.
Context {D : TensorData}.

Lemma pack_NTuple xs flat :
  pack (NTuple xs) flat =
  match pack_items xs flat with
  | Some (ys, rest) => Some (NTuple ys, rest)
  | None => None
  end.
Proof. reflexivity. Qed.

Lemma pack_NList xs flat :
  pack (NList xs) flat =
  match pack_items xs flat with
  | Some (ys, rest) => Some (NList ys, rest)
  | None => None
  end.
Proof. reflexivity. Qed.

Lemma pack_NDict kvs flat :
  pack (NDict kvs) flat =
  match pack_values kvs flat with
  | Some (ys, rest) => Some (NDict ys, rest)
  | None => None
  end.
Proof. reflexivity. Qed.

Lemma same_structure_NTuple xs ys :
  same_structure (NTuple xs) (NTuple ys) = same_structure_items xs ys.
Proof. reflexivity. Qed.

Lemma same_structure_NList xs ys :
  same_structure (NList xs) (NList ys) = same_structure_items xs ys.
Proof. reflexivity. Qed.

Lemma same_structure_NDict kvs kws :
  same_structure (NDict kvs) (NDict kws) = same_structure_values kvs kws.
Proof. reflexivity. Qed.

Lemma pack_items_well xs :
  Forall packs_well xs →
  ∀ vs rest, length vs = length (flat_map flatten xs) →
    ∃ ys, pack_items xs (vs ++ rest) = Some (ys, rest)
          ∧ same_structure_items xs ys = true ∧ flat_map flatten ys = vs.
Proof.
  induction 1 as [|x xs Hx _ IH]; intros vs rest Hlen; simpl in *.
  - destruct vs; [|done]. by exists [].
  - rewrite length_app in Hlen.
    destruct (Hx (take (length (flatten x)) vs)
                 (drop (length (flatten x)) vs ++ rest)) as (r & Hr & Hs & Hf).
    { rewrite length_take. lia. }
    destruct (IH (drop (length (flatten x)) vs) rest) as (ys & Hys & Hss & Hfs).
    { rewrite length_drop. lia. }
    exists (r :: ys).
    rewrite <- (take_drop (length (flatten x)) vs) at 1.
    rewrite <- (assoc_L (++)), Hr, Hys. simpl.
    rewrite Hs, Hss, Hf, Hfs. by rewrite take_drop.
Qed.

Lemma pack_values_well kvs :
  Forall (λ kv, packs_well kv.2) kvs →
  ∀ vs rest, length vs = length (flat_map (λ kv, flatten kv.2) kvs) →
    ∃ ys, pack_values kvs (vs ++ rest) = Some (ys, rest)
          ∧ same_structure_values kvs ys = true
          ∧ flat_map (λ kv, flatten kv.2) ys = vs.
Proof.
  induction 1 as [|[k x] kvs Hx _ IH]; intros vs rest Hlen; simpl in *.
  - destruct vs; [|done]. by exists [].
  - rewrite length_app in Hlen.
    destruct (Hx (take (length (flatten x)) vs)
                 (drop (length (flatten x)) vs ++ rest)) as (r & Hr & Hs & Hf).
    { rewrite length_take. lia. }
    destruct (IH (drop (length (flatten x)) vs) rest) as (ys & Hys & Hss & Hfs).
    { rewrite length_drop. lia. }
    exists ((k, r) :: ys).
    rewrite <- (take_drop (length (flatten x)) vs) at 1.
    rewrite <- (assoc_L (++)), Hr, Hys. simpl.
    rewrite Hs, Hss, Hf, Hfs, bool_decide_eq_true_2 by done.
    by rewrite take_drop.
Qed.

Lemma pack_well s : packs_well s.
Proof.
  induction s as [x|xs IH|xs IH|kvs IH] using nest_ind; intros vs rest Hlen.
  - destruct vs as [|v [|? ?]]; simplify_eq/=. by exists (Leaf v).
  - destruct (pack_items_well xs IH vs rest Hlen) as (ys & Hp & Hs & Hf).
    exists (NTuple ys). by rewrite pack_NTuple, Hp, same_structure_NTuple.
  - destruct (pack_items_well xs IH vs rest Hlen) as (ys & Hp & Hs & Hf).
    exists (NList ys). by rewrite pack_NList, Hp, same_structure_NList.
  - destruct (pack_values_well kvs IH vs rest Hlen) as (ys & Hp & Hs & Hf).
    exists (NDict ys). by rewrite pack_NDict, Hp, same_structure_NDict.
Qed.

Lemma pack_items_itself xs :
  Forall packs_itself xs →
  ∀ rest, pack_items xs (flat_map flatten xs ++ rest) = Some (xs, rest).
Proof.
  induction 1 as [|x xs Hx _ IH]; intros rest; simpl; [done|].
  by rewrite <- (assoc_L (++)), Hx, IH.
Qed.

Lemma pack_values_itself kvs :
  Forall (λ kv, packs_itself kv.2) kvs →
  ∀ rest, pack_values kvs (flat_map (λ kv, flatten kv.2) kvs ++ rest)
          = Some (kvs, rest).
Proof.
  induction 1 as [|[k x] kvs Hx _ IH]; intros rest; simpl; [done|].
  simpl in Hx. by rewrite <- (assoc_L (++)), Hx, IH.
Qed.

Lemma pack_itself s : packs_itself s.
Proof.
  induction s as [x|xs IH|xs IH|kvs IH] using nest_ind; intros rest.
  - done.
  - simpl flatten. by rewrite pack_NTuple, pack_items_itself.
  - simpl flatten. by rewrite pack_NList, pack_items_itself.
  - simpl flatten. by rewrite pack_NDict, pack_values_itself.
Qed.

Lemma restore_ok (self : NestSequence) (v : list leaf) :
  length v = length (tolist self) →
  ∃ r, restore self v = Ok r
       ∧ same_structure (raw_input self) r = true ∧ flatten r = v.
Proof.
  intros Hlen. unfold restore, pack_sequence_as, tolist in *.
  rewrite !bool_decide_eq_true_2 by done.
  destruct (pack_well (raw_input self) v [] Hlen) as (r & Hr & Hs & Hf).
  rewrite (right_id_L [] (++)) in Hr. rewrite Hr. eauto.
Qed.

(** C6: restoring a structure from its own flattened sequence gives the
    structure back, leaf for leaf; and whenever a sequence of as many values
    as the template has leaves is restored, flattening the result gives a
    sequence of that same length. *)
Theorem restore_flatten_roundtrip :
  (∀ s : nest, restore (NestSequence_init s) (flatten s) = Ok s)
  ∧ (∀ (s : nest) (flat : list leaf),
       length flat = length (flatten s) →
       ∃ r, restore (NestSequence_init s) flat = Ok r
            ∧ length (flatten r) = length flat).
Proof.
  split.
  - intros s. unfold restore, pack_sequence_as, tolist. simpl.
    rewrite !bool_decide_eq_true_2 by done.
    pose proof (pack_itself s []) as Hp.
    rewrite (right_id_L [] (++)) in Hp. by rewrite Hp.
  - intros s flat Hlen.
    destruct (restore_ok (NestSequence_init s) flat Hlen) as (r & Hr & _ & Hf).
    exists r. by rewrite Hf.
Qed.

(** C7: [restore] raises at once when the number of values differs from
    the template's leaf count; otherwise it returns a structure of the
    template's composition whose leaves are the given values, in order. *)
Theorem restore_arity (self : NestSequence) (v : list leaf) :
  (length v ≠ length (tolist self) → restore self v = Raise AssertionError)
  ∧ (length v = length (tolist self) →
     ∃ r, restore self v = Ok r
          ∧ same_structure (raw_input self) r = true ∧ flatten r = v).
Proof.
  split.
  - intros Hne. unfold restore. by rewrite bool_decide_eq_false_2.
  - apply restore_ok.
Qed.

End Codec.

(** ** Sentinel filtering, pruning, parameter check, placeholders *)

Section ValueProperties.
Context {D : TensorData}.

Lemma is_no_value_iff (v : nest) :
  _is_no_value v = true ↔
  ∃ t x, v = Leaf (LVarBase t) ∧ shape t = [1%Z]
         ∧ numpy t !! 0 = Some x ∧ is_magic x = true.
Proof.
  split.
  - destruct v as [[| |t| | | |]| | |]; simpl; try done.
    intros [Hs Hm]%andb_prop. apply bool_decide_eq_true_1 in Hs.
    destruct (numpy t !! 0) as [x|] eqn:Hx; [|done]. by exists t, x.
  - intros (t & x & -> & Hs & Hx & Hm). simpl.
    by rewrite Hx, Hm, bool_decide_eq_true_2.
Qed.

Lemma without_no_value_filter (xs : list nest) :
  without_no_value xs = filter (λ v, _is_no_value v = false) xs.
Proof.
  induction xs as [|x xs IH]; [done|]. simpl.
  destruct (_is_no_value x) eqn:Hx; simpl.
  - rewrite filter_cons_False by (by rewrite Hx). done.
  - rewrite filter_cons_True by done. by rewrite IH.
Qed.

Lemma without_no_value_length (xs : list nest) :
  length (without_no_value xs) ≤ length xs.
Proof.
  induction xs as [|x xs IH]; simpl; [done|].
  destruct (_is_no_value x); simpl; lia.
Qed.

Lemma without_no_value_all (xs : list nest) :
  Forall (λ v, _is_no_value v = false) xs → without_no_value xs = xs.
Proof.
  induction 1 as [|x xs Hx _ IH]; simpl; [done|]. by rewrite Hx, IH.
Qed.

Lemma without_no_value_some (xs : list nest) :
  Exists (λ v, _is_no_value v = true) xs →
  length (without_no_value xs) < length xs.
Proof.
  induction 1 as [x xs Hx|x xs _ IH]; simpl.
  - rewrite Hx. simpl. pose proof (without_no_value_length xs). lia.
  - destruct (_is_no_value x); simpl; lia.
Qed.

Lemma remove_from_sequence_kept (container : list nest → nest) xs :
  Forall (λ v, _is_no_value v = false) xs →
  remove_from_sequence container xs = container xs.
Proof.
  intros Hall. unfold remove_from_sequence.
  rewrite (without_no_value_all xs Hall).
  rewrite (bool_decide_eq_false_2 (length xs < length xs)) by lia.
  by rewrite !andb_false_r.
Qed.

Lemma remove_from_sequence_removed (container : list nest → nest) xs :
  Exists (λ v, _is_no_value v = true) xs →
  remove_from_sequence container xs =
  match filter (λ v, _is_no_value v = false) xs with
  | [] => Leaf LNone
  | [r] => r
  | res => container res
  end.
Proof.
  intros Hex%without_no_value_some. unfold remove_from_sequence.
  rewrite <- without_no_value_filter.
  rewrite (bool_decide_eq_true_2 _ Hex), !andb_true_r.
  by destruct (without_no_value xs) as [|? [|? ?]].
Qed.

(** C1: a value is a sentinel exactly when it is a tensor of shape [1]
    whose element is the magic constant; a lone sentinel becomes None and a
    lone other tensor is kept; from a tuple or list exactly the sentinels
    are removed, order kept; when at least one was removed, nothing left
    gives None and one element left gives that element; in all other cases
    the result is the filtered sequence in its own kind, and a value that
    is neither a tensor nor a tuple or list is returned as it is. *)
Theorem remove_no_value_spec :
  (∀ v : nest,
     _is_no_value v = true ↔
     ∃ t x, v = Leaf (LVarBase t) ∧ shape t = [1%Z]
            ∧ numpy t !! 0 = Some x ∧ is_magic x = true)
  ∧ (∀ t, _is_no_value (Leaf (LVarBase t)) = true →
          _remove_no_value (Leaf (LVarBase t)) = Leaf LNone)
  ∧ (∀ t, _is_no_value (Leaf (LVarBase t)) = false →
          _remove_no_value (Leaf (LVarBase t)) = Leaf (LVarBase t))
  ∧ (∀ xs, Forall (λ v, _is_no_value v = false) xs →
           _remove_no_value (NTuple xs) = NTuple xs
           ∧ _remove_no_value (NList xs) = NList xs)
  ∧ (∀ xs, Exists (λ v, _is_no_value v = true) xs →
           _remove_no_value (NTuple xs) =
             match filter (λ v, _is_no_value v = false) xs with
             | [] => Leaf LNone
             | [r] => r
             | res => NTuple res
             end
           ∧ _remove_no_value (NList xs) =
             match filter (λ v, _is_no_value v = false) xs with
             | [] => Leaf LNone
             | [r] => r
             | res => NList res
             end)
  ∧ (∀ v, (∀ t, v ≠ Leaf (LVarBase t)) → (∀ xs, v ≠ NTuple xs) →
          (∀ xs, v ≠ NList xs) → _remove_no_value v = v).
Proof.
  split; [apply is_no_value_iff|].
  split; [intros t Ht; unfold _remove_no_value; by rewrite Ht|].
  split; [intros t Ht; unfold _remove_no_value; by rewrite Ht|].
  split; [intros xs Hxs; split; by apply remove_from_sequence_kept|].
  split; [intros xs Hxs; split; by apply remove_from_sequence_removed|].
  intros v Ht Htu Hl.
  destruct v as [[| |t| | | |]|xs|xs|kvs]; try done.
  - by destruct (Ht t).
  - by destruct (Htu xs).
  - by destruct (Hl xs).
Qed.

(** *** Pruning *)

Lemma prune_ops_loop_spec name l :
  prune_ops_loop name l = true ↔
  Exists (λ op, name ∈ input_arg_names op ∨ name ∈ output_arg_names op) l.
Proof.
  induction l as [|op l IH]; simpl.
  - split; [done|]. by intros ?%Exists_nil.
  - rewrite Exists_cons.
    destruct (bool_decide (name ∈ input_arg_names op)) eqn:Hi;
      [apply bool_decide_eq_true_1 in Hi; simpl; intuition auto|].
    destruct (bool_decide (name ∈ output_arg_names op)) eqn:Ho;
      [apply bool_decide_eq_true_1 in Ho; simpl; intuition auto|].
    apply bool_decide_eq_false_1 in Hi, Ho. simpl. intuition auto.
Qed.

Lemma prune_blocks_loop_spec name l :
  prune_blocks_loop name l = true ↔
  Exists (λ block,
    Exists (λ op, name ∈ input_arg_names op ∨ name ∈ output_arg_names op)
           (ops block)) l.
Proof.
  induction l as [|b l IH]; simpl.
  - split; [done|]. by intros ?%Exists_nil.
  - rewrite Exists_cons, <- prune_ops_loop_spec.
    destruct (prune_ops_loop name (ops b)); intuition (auto; congruence).
Qed.

Lemma prune_params_loop_filter params program acc :
  prune_params_loop params program acc =
  acc ++ filter (λ p, referenced program (vb_name p)) params.
Proof.
  revert acc.
  induction params as [|p params IH]; intros acc; cbn [prune_params_loop].
  - by rewrite filter_nil, app_nil_r.
  - destruct (prune_blocks_loop (vb_name p) (blocks program)) eqn:Hp.
    + apply prune_blocks_loop_spec in Hp.
      rewrite IH, filter_cons_True by exact Hp. by rewrite <- (assoc_L (++)).
    + rewrite IH, filter_cons_False; [done|].
      intros Hr%prune_blocks_loop_spec. congruence.
Qed.

Lemma prune_filter params program :
  _prune_unused_params params program =
  filter (λ p, referenced program (vb_name p)) params.
Proof. unfold _prune_unused_params. by rewrite prune_params_loop_filter. Qed.

Lemma omap_as_VarBase (P : list VarBase) :
  omap as_VarBase ((λ t, Leaf (LVarBase t)) <$> P) = P.
Proof. induction P as [|t P IH]; simpl; [done|]. f_equal. exact IH. Qed.

(** C2: pruning keeps, in their order, exactly the parameters whose name
    is an input or output argument of some operator of some block of the
    graph; pruning the pruned list again changes nothing; and the list
    that a successful construction leaves in the instance is the pruned
    one. *)
Theorem prune_unused_params_spec (P : list VarBase) (G : Program)
    (inputs outputs : nest) :
  _prune_unused_params P G = filter (λ p, referenced G (vb_name p)) P
  ∧ _prune_unused_params P G `sublist_of` P
  ∧ (∀ p, p ∈ _prune_unused_params P G ↔
          p ∈ P ∧ ∃ block op, block ∈ blocks G ∧ op ∈ ops block
                    ∧ (vb_name p ∈ input_arg_names op
                       ∨ vb_name p ∈ output_arg_names op))
  ∧ _prune_unused_params (_prune_unused_params P G) G
    = _prune_unused_params P G
  ∧ match __init__ G inputs outputs
            (Some (ParamsSeq ((λ t, Leaf (LVarBase t)) <$> P))) with
    | Ok s => _params s = _prune_unused_params P G
    | Raise _ => True
    end.
Proof.
  rewrite !prune_filter. split; [done|].
  split; [apply sublist_filter|].
  split; [|split].
  - intros p. rewrite list_elem_of_filter. unfold referenced.
    rewrite Exists_exists. setoid_rewrite Exists_exists. split.
    + intros ((block & Hb & op & Ho & Hn) & Hp). eauto 10.
    + intros (Hp & block & op & Hb & Ho & Hn). eauto 10.
  - apply list_filter_filter_l. done.
  - unfold __init__. cbn [default].
    destruct (_check_params_all_inited _ G); [|done].
    cbn [_params id]. by rewrite omap_as_VarBase, prune_filter.
Qed.

End ValueProperties.

(** ** The layer *)

(** The interpreter leaves the instance as it is but for the contents of
    the double-gradient tensors. *)
Lemma after_call_frame {D : TensorData} {F : Framework}
    (call : RunProgramCall) (s : PartialProgramLayer) :
  ∃ double_grads,
    after_call call s = with_double_grads double_grads s
    ∧ length double_grads = length (_double_grads s).
Proof.
  unfold after_call. destruct (run_program call) as [written|e].
  - eexists. split; [done|]. by rewrite length_imap.
  - exists (_double_grads s). by destruct s.
Qed.

Ltac frame_after_call :=
  match goal with
  | |- context [after_call ?call ?s] =>
      let dg := fresh "dg" in
      let Hdg := fresh "Hdg" in
      destruct (after_call_frame call s) as (dg & -> & Hdg);
      cbn [with_double_grads _inputs _outputs _params _origin_main_program
           _double_grads training __dict__ self trace]
  | _ => idtac
  end.

Section LayerProperties.
Context {D : TensorData} {F : Framework}.

(** *** Parameter check *)

Lemma check_entries_loop_ok i entries names :
  Forall (λ e, is_Some (as_VarBase e)) entries →
  check_entries_loop i entries names = Ok (names ∪ param_names entries).
Proof.
  intros Hall. revert i names.
  induction Hall as [|e entries [t Ht] _ IH]; intros i names.
  - unfold param_names. simpl. by rewrite (right_id_L ∅ (∪)).
  - destruct e as [[| |t'| | | |]| | |]; simplify_eq/=.
    rewrite IH. unfold param_names. simpl. by rewrite (assoc_L (∪)).
Qed.

Lemma check_vars_loop_spec l names :
  match check_vars_loop l names with
  | Ok _ => ∀ name var, (name, var) ∈ l → is_parameter var = true → name ∈ names
  | Raise e => ∃ name var, e = ValueError_param_created name ∧ (name, var) ∈ l
                           ∧ is_parameter var = true ∧ name ∉ names
  end.
Proof.
  induction l as [|[name var] l IH]; simpl.
  - intros ?? ?%elem_of_nil. done.
  - destruct (is_parameter var) eqn:Hp.
    + case_bool_decide as Hin.
      * destruct (check_vars_loop l names).
        -- intros n v Hnv ?.
           apply elem_of_cons in Hnv as [?|?]; [simplify_eq; eauto|eauto].
        -- destruct IH as (n & v & ? & ? & ? & ?).
           exists n, v. rewrite elem_of_cons. eauto.
      * exists name, var. rewrite elem_of_cons. eauto.
    + destruct (check_vars_loop l names).
      * intros n v Hnv ?.
        apply elem_of_cons in Hnv as [?|?]; [simplify_eq; congruence|eauto].
      * destruct IH as (n & v & ? & ? & ? & ?).
        exists n, v. rewrite elem_of_cons. eauto.
Qed.

Lemma check_blocks_loop_spec l names :
  match check_blocks_loop l names with
  | Ok _ => ∀ block name var, block ∈ l → (name, var) ∈ vars block →
                              is_parameter var = true → name ∈ names
  | Raise e => ∃ block name var, e = ValueError_param_created name
                 ∧ block ∈ l ∧ (name, var) ∈ vars block
                 ∧ is_parameter var = true ∧ name ∉ names
  end.
Proof.
  induction l as [|b l IH]; simpl.
  - intros ??? ?%elem_of_nil. done.
  - pose proof (check_vars_loop_spec (vars b) names) as Hb.
    destruct (check_vars_loop (vars b) names).
    + destruct (check_blocks_loop l names).
      * intros b' n v Hb' ??.
        apply elem_of_cons in Hb' as [?|?]; [simplify_eq; eauto|eauto].
      * destruct IH as (b' & n & v & ? & ? & ? & ? & ?).
        exists b', n, v. rewrite elem_of_cons. eauto 10.
    + destruct Hb as (n & v & ? & ? & ? & ?).
      exists b, n, v. rewrite elem_of_cons. eauto 10.
Qed.

(** C8 (as the code has it): when the parameters are a list or tuple of
    tensors, construction raises the ValueError that names the Variable
    whenever the graph defines a Variable of the Parameter class whose name
    no supplied parameter carries, and construction succeeds when every
    Variable of the Parameter class is present. *)
Theorem check_params_all_inited_spec (G : Program) (inputs outputs : nest)
    (entries : list nest) :
  Forall (λ e, is_Some (as_VarBase e)) entries →
  ((∃ name, undeclared_parameter G (param_names entries) name) →
   ∃ name, undeclared_parameter G (param_names entries) name
           ∧ __init__ G inputs outputs (Some (ParamsSeq entries))
             = Raise (ValueError_param_created name))
  ∧ ((¬ ∃ name, undeclared_parameter G (param_names entries) name) →
     is_ok (__init__ G inputs outputs (Some (ParamsSeq entries))) = true).
Proof.
  intros Hall. unfold __init__, _check_params_all_inited. cbn.
  rewrite (check_entries_loop_ok 0 entries ∅ Hall).
  rewrite (left_id_L ∅ (∪)).
  pose proof (check_blocks_loop_spec (blocks G) (param_names entries)) as Hc.
  destruct (check_blocks_loop (blocks G) (param_names entries)) as [[]|e].
  - split; [|done].
    intros (name & block & var & Hb & Hv & Hp & Hn).
    destruct Hn. eauto.
  - destruct Hc as (block & name & var & -> & Hb & Hv & Hp & Hn). split.
    + intros _. exists name. split; [|done]. exists block, var. eauto.
    + intros Hno. destruct Hno. exists name, block, var. eauto.
Qed.

(** *** Placeholders *)

Lemma valid_vars_spec (vars : list VarBase) :
  valid_vars vars ≠ []
  ∧ (vars = [] → valid_vars vars = [Fake_var])
  ∧ (vars ≠ [] → valid_vars vars = vars).
Proof. destruct vars; simpl; done. Qed.

(** *** Lazy attributes *)

Lemma function_runs_app name tr tr' :
  function_runs name (tr ++ tr')
  = function_runs name tr + function_runs name tr'.
Proof. unfold function_runs. by rewrite filter_app, length_app. Qed.

Lemma gradients_calls_app tr tr' :
  gradients_calls (tr ++ tr') = gradients_calls tr + gradients_calls tr'.
Proof. unfold gradients_calls. by rewrite filter_app, length_app. Qed.

Lemma with_params_id s : with_params (id <$> _params s) s = s.
Proof. rewrite list_fmap_id. by destruct s. Qed.

Lemma function_runs_quiet name extra :
  Forall (λ e, is_gradients_event e = true) extra →
  function_runs name extra = 0.
Proof.
  unfold function_runs. induction 1 as [|e extra He _ IH]; [done|].
  rewrite filter_cons_False; [done|].
  destruct e; simpl in *; [congruence|tauto|congruence].
Qed.

Lemma infer_function_quiet : quiet _infer_program_function.
Proof.
  intros w. exists id, []. simpl.
  by rewrite with_params_id, app_nil_r.
Qed.

Lemma targets_loop_no_variable program outs acc :
  Forall (λ x, ∀ v, x ≠ LVariable v) outs →
  targets_loop program outs acc = acc.
Proof.
  induction 1 as [|x outs Hx _ IH]; simpl; [done|].
  destruct x as [|v| | | | |]; try done. by destruct (Hx v).
Qed.

(** The two outcomes of [_append_backward_desc]. *)
Lemma append_backward_desc_eq main_program w :
  let program := _change_is_test_status main_program false in
  let targets := targets_loop program (tolist (_outputs (self w))) [] in
  _append_backward_desc main_program w =
  match targets, _params (self w) with
  | _ :: _, _ :: _ =>
      (gradients program targets,
       {| self := self w; trace := trace w ++ [EvGradients targets] |})
  | _, _ => (program, w)
  end.
Proof.
  unfold _append_backward_desc, bind, get_self, Program_clone. simpl.
  by destruct (targets_loop _ _ _) as [|t ts], (_params (self w)) as [|p ps].
Qed.

Lemma train_function_eq w :
  let r := _append_backward_desc (_origin_main_program (self w)) w in
  _train_program_function w =
  (r.1, {| self := with_params (set_grad_type_of r.1 <$> _params (self r.2))
                     (self r.2);
           trace := trace r.2 |}).
Proof.
  unfold _train_program_function, bind, get_self. simpl.
  by destruct (_append_backward_desc _ w) as [tp w1].
Qed.

Lemma train_function_quiet : quiet _train_program_function.
Proof.
  intros w. rewrite train_function_eq, append_backward_desc_eq. simpl.
  destruct (targets_loop _ _ _) as [|t ts], (_params (self w)) as [|p ps] eqn:Hp;
    simpl; rewrite ?Hp.
  1-3: exists (set_grad_type_of
                 (_change_is_test_status (_origin_main_program (self w)) false)),
              []; rewrite app_nil_r; by repeat split.
  by eexists _, [_]; repeat split; repeat constructor.
Qed.

(** The two cases of reading a lazy attribute. *)
Lemma getattr_lazy_cached name function w val :
  __dict__ (self w) !! name = Some val →
  getattr_lazy name function w = (val, w).
Proof. intros H. unfold getattr_lazy. by rewrite H. Qed.

Lemma getattr_lazy_first name function w :
  quiet function →
  __dict__ (self w) !! name = None →
  ∃ val w' g extra,
    getattr_lazy name function w = (val, w')
    ∧ val = (function {| self := self w;
                         trace := trace w ++ [EvFunction name] |}).1
    ∧ self w' = with_dict (<[name := val]> (__dict__ (self w)))
                  (with_params (g <$> _params (self w)) (self w))
    ∧ trace w' = trace w ++ EvFunction name :: extra
    ∧ Forall (λ e, is_gradients_event e = true) extra.
Proof.
  intros Hq Hnone. unfold getattr_lazy. rewrite Hnone.
  unfold LazyInitialized_get, bind, emit, setattr, ret.
  set (w0 := {| self := self w; trace := trace w ++ [EvFunction name] |}).
  destruct (Hq w0) as (g & extra & Hs & Htr & Hex).
  destruct (function w0) as [val w1]. simpl in *.
  eexists val, _, g, extra. split; [reflexivity|]. simpl.
  rewrite Hs, Htr, <- (assoc_L (++)). done.
Qed.

(** Reading a lazy attribute changes, of the instance, the parameters'
    gradient types and the stored attributes at most. *)
Lemma getattr_lazy_frame name function w :
  quiet function →
  ∃ g d, self (getattr_lazy name function w).2
         = with_dict d (with_params (g <$> _params (self w)) (self w)).
Proof.
  intros Hq. destruct (__dict__ (self w) !! name) as [val|] eqn:Hl.
  - rewrite (getattr_lazy_cached _ _ _ _ Hl). exists id, (__dict__ (self w)).
    simpl. rewrite with_params_id. by destruct (self w).
  - destruct (getattr_lazy_first name function w Hq Hl)
      as (val & w' & g & extra & -> & _ & Hs & _). simpl. eauto.
Qed.

Lemma getattr_lazy_stored name function w :
  quiet function →
  __dict__ (self (getattr_lazy name function w).2) !! name
  = Some (getattr_lazy name function w).1.
Proof.
  intros Hq. destruct (__dict__ (self w) !! name) as [val|] eqn:Hl.
  - by rewrite (getattr_lazy_cached _ _ _ _ Hl).
  - destruct (getattr_lazy_first name function w Hq Hl)
      as (val & w' & g & extra & -> & _ & Hs & _). simpl.
    rewrite Hs. simpl. by rewrite lookup_insert_eq.
Qed.

Lemma getattr_lazy_keeps name function w n val :
  quiet function →
  __dict__ (self w) !! n = Some val →
  __dict__ (self (getattr_lazy name function w).2) !! n = Some val.
Proof.
  intros Hq Hn. destruct (__dict__ (self w) !! name) as [v|] eqn:Hl.
  - by rewrite (getattr_lazy_cached _ _ _ _ Hl).
  - destruct (getattr_lazy_first name function w Hq Hl)
      as (v & w' & g & extra & -> & _ & Hs & _). simpl.
    rewrite Hs. simpl. rewrite lookup_insert_ne; [done|]. congruence.
Qed.

Lemma getattr_lazy_consistent name function w :
  quiet function →
  lazy_consistent w →
  lazy_consistent (getattr_lazy name function w).2.
Proof.
  intros Hq Hinv. destruct (__dict__ (self w) !! name) as [v|] eqn:Hl.
  - by rewrite (getattr_lazy_cached _ _ _ _ Hl).
  - destruct (getattr_lazy_first name function w Hq Hl)
      as (v & w' & g & extra & -> & _ & Hs & Htr & Hex). simpl.
    intros n. rewrite Htr, Hs, function_runs_app. simpl.
    change (EvFunction name :: extra) with ([EvFunction name] ++ extra).
    rewrite function_runs_app, (function_runs_quiet n extra Hex), Hinv.
    unfold function_runs. destruct (decide (n = name)) as [->|Hne].
    + rewrite Hl, lookup_insert_eq, filter_cons_True; [done|].
      simpl. by rewrite bool_decide_eq_true_2.
    + rewrite lookup_insert_ne by done.
      rewrite filter_cons_False; [simpl; lia|].
      simpl. rewrite bool_decide_eq_false_2 by congruence. simpl. tauto.
Qed.

(** *** One call *)

Lemma program_eq w :
  program w = if training (self w) then _train_program w else _infer_program w.
Proof. unfold program, bind, get_self. simpl. by destruct (training (self w)). Qed.

Lemma program_frame w :
  ∃ g d, self (program w).2
         = with_dict d (with_params (g <$> _params (self w)) (self w)).
Proof.
  rewrite program_eq. destruct (training (self w)).
  - apply getattr_lazy_frame, train_function_quiet.
  - apply getattr_lazy_frame, infer_function_quiet.
Qed.

Lemma program_consistent w :
  lazy_consistent w → lazy_consistent (program w).2.
Proof.
  rewrite program_eq. destruct (training (self w)).
  - apply getattr_lazy_consistent, train_function_quiet.
  - apply getattr_lazy_consistent, infer_function_quiet.
Qed.

Lemma program_keeps w n val :
  __dict__ (self w) !! n = Some val →
  __dict__ (self (program w).2) !! n = Some val.
Proof.
  rewrite program_eq. destruct (training (self w)).
  - apply getattr_lazy_keeps, train_function_quiet.
  - apply getattr_lazy_keeps, infer_function_quiet.
Qed.

Lemma forward_raise inputs w e :
  _prepare (self w) inputs = Raise e → forward inputs w = (Raise e, w).
Proof. intros H. unfold forward, bind, get_self. simpl. by rewrite H. Qed.

(** The state after a call whose arguments could be prepared. *)
Lemma forward_ok inputs w in_vars out_vars sc :
  _prepare (self w) inputs = Ok (in_vars, out_vars, sc) →
  let w1 := (program w).2 in
  let w2 := (_infer_program w1).2 in
  let call :=
    {| X := valid_vars in_vars;
       Params := valid_vars (_params (self w2));
       Out := valid_vars out_vars;
       OutScope := sc;
       DOut := valid_vars (_double_grads (self w2));
       call_global_block := global_block (program w).1;
       start_op_index := 0;
       end_op_index := op_size (global_block (_infer_program w1).1);
       is_test := negb (training (self w2)) |} in
  (forward inputs w).2
  = {| self := after_call call (self w2);
       trace := trace w2 ++ [EvRunProgram call] |}.
Proof.
  intros H. unfold forward, after_call, bind, get_self. simpl. rewrite H.
  destruct (program w) as [prog w1]. simpl.
  destruct (_infer_program w1) as [infer w2]. simpl.
  destruct (run_program _) as [written|e]; simpl.
  - by destruct (_restore_out _ _).
  - by destruct w2.
Qed.

Lemma function_runs_run_program name tr call :
  function_runs name (tr ++ [EvRunProgram call]) = function_runs name tr.
Proof.
  rewrite function_runs_app. unfold function_runs at 2.
  rewrite filter_cons_False by (simpl; tauto). simpl. lia.
Qed.

Lemma forward_consistent inputs w :
  lazy_consistent w → lazy_consistent (forward inputs w).2.
Proof.
  intros Hinv. destruct (_prepare (self w) inputs) as [[[iv ov] sc]|e] eqn:Hp.
  - rewrite (forward_ok _ _ _ _ _ Hp). intros n. simpl. frame_after_call.
    rewrite function_runs_run_program.
    by apply getattr_lazy_consistent, program_consistent;
      [apply infer_function_quiet|].
  - by rewrite (forward_raise _ _ _ Hp).
Qed.

Lemma forward_keeps inputs w n val :
  __dict__ (self w) !! n = Some val →
  __dict__ (self (forward inputs w).2) !! n = Some val.
Proof.
  intros Hn. destruct (_prepare (self w) inputs) as [[[iv ov] sc]|e] eqn:Hp.
  - rewrite (forward_ok _ _ _ _ _ Hp). simpl. frame_after_call.
    by apply getattr_lazy_keeps, program_keeps; [apply infer_function_quiet|].
  - by rewrite (forward_raise _ _ _ Hp).
Qed.

Lemma step_consistent a w : lazy_consistent w → lazy_consistent (step a w).
Proof. destruct a; [apply forward_consistent|done]. Qed.

Lemma step_keeps a w n val :
  __dict__ (self w) !! n = Some val →
  __dict__ (self (step a w)) !! n = Some val.
Proof. destruct a; [apply forward_keeps|done]. Qed.

Lemma run_consistent acts w : lazy_consistent w → lazy_consistent (run acts w).
Proof.
  revert w. induction acts as [|a acts IH]; intros w Hw; [done|].
  apply IH, step_consistent, Hw.
Qed.

Lemma run_keeps acts w n val :
  __dict__ (self w) !! n = Some val →
  __dict__ (self (run acts w)) !! n = Some val.
Proof.
  revert w. induction acts as [|a acts IH]; intros w Hw; [done|].
  apply IH, step_keeps, Hw.
Qed.

Lemma lazy_consistent_le w name :
  lazy_consistent w → function_runs name (trace w) ≤ 1.
Proof. intros H. rewrite H. destruct (_ !! _); lia. Qed.

Lemma getattr_lazy_first_runs name function w :
  quiet function → lazy_consistent w →
  __dict__ (self w) !! name = None →
  function_runs name (trace w) = 0
  ∧ function_runs name (trace (getattr_lazy name function w).2) = 1.
Proof.
  intros Hq Hw Hl. split; [by rewrite Hw, Hl|].
  rewrite (getattr_lazy_consistent name function w Hq Hw).
  by rewrite getattr_lazy_stored.
Qed.

(** C3: over any sequence of forward calls and changes of the training
    flag on a new instance, the function behind each of the two lazy
    attributes runs at most once; the first read of an attribute runs it,
    and once an attribute is stored every later read returns the stored
    value, changes nothing, and the value stays stored whatever follows. *)
Theorem variants_built_at_most_once (s : PartialProgramLayer)
    (acts : list action) :
  __dict__ s = ∅ →
  let w := run acts {| self := s; trace := [] |} in
  function_runs "_train_program" (trace w) ≤ 1
  ∧ function_runs "_infer_program" (trace w) ≤ 1
  ∧ (__dict__ (self w) !! "_train_program" = None →
     function_runs "_train_program" (trace w) = 0
     ∧ function_runs "_train_program" (trace (_train_program w).2) = 1)
  ∧ (__dict__ (self w) !! "_infer_program" = None →
     function_runs "_infer_program" (trace w) = 0
     ∧ function_runs "_infer_program" (trace (_infer_program w).2) = 1)
  ∧ (∀ val, __dict__ (self w) !! "_train_program" = Some val →
            _train_program w = (val, w))
  ∧ (∀ val, __dict__ (self w) !! "_infer_program" = Some val →
            _infer_program w = (val, w))
  ∧ (∀ name val more, __dict__ (self w) !! name = Some val →
                      __dict__ (self (run more w)) !! name = Some val).
Proof.
  intros Hempty w.
  assert (lazy_consistent w) as Hw.
  { apply run_consistent. intros n. simpl. by rewrite Hempty, lookup_empty. }
  split; [by apply lazy_consistent_le|].
  split; [by apply lazy_consistent_le|].
  split; [by apply getattr_lazy_first_runs; [apply train_function_quiet|]|].
  split; [by apply getattr_lazy_first_runs; [apply infer_function_quiet|]|].
  split; [intros val; apply getattr_lazy_cached|].
  split; [intros val; apply getattr_lazy_cached|].
  intros name val more. apply run_keeps.
Qed.

(** C9: [valid_vars] never returns an empty list; it puts the one tensor
    [Fake_var] in place of an empty list and keeps any other list.  Every
    call that reaches the interpreter hands it these four lists, so inputs,
    parameters, outputs and double gradients are all non-empty; a call whose
    arguments cannot be prepared reaches no interpreter. *)
Theorem forward_collections_nonempty (inputs : nest) (w : World) :
  (∀ vars : list VarBase,
     valid_vars vars ≠ []
     ∧ (vars = [] → valid_vars vars = [Fake_var])
     ∧ (vars ≠ [] → valid_vars vars = vars))
  ∧ (∀ in_vars out_vars sc,
       _prepare (self w) inputs = Ok (in_vars, out_vars, sc) →
       ∃ call tr,
         trace (forward inputs w).2 = tr ++ [EvRunProgram call]
         ∧ X call = valid_vars in_vars
         ∧ Params call = valid_vars (_params (self (forward inputs w).2))
         ∧ length (_params (self (forward inputs w).2))
           = length (_params (self w))
         ∧ Out call = valid_vars out_vars
         ∧ DOut call = valid_vars (_double_grads (self w))
         ∧ X call ≠ [] ∧ Params call ≠ [] ∧ Out call ≠ [] ∧ DOut call ≠ [])
  ∧ (∀ e, _prepare (self w) inputs = Raise e → (forward inputs w).2 = w).
Proof.
  split; [apply valid_vars_spec|]. split.
  - intros iv ov sc Hp. rewrite (forward_ok _ _ _ _ _ Hp). simpl.
    frame_after_call.
    eexists _, _. split; [reflexivity|]. simpl.
    destruct (program_frame w) as (g & d & Hs).
    destruct (getattr_lazy_frame "_infer_program" _infer_program_function
                (program w).2 infer_function_quiet) as (g' & d' & Hs').
    fold _infer_program in Hs'. rewrite Hs', Hs. simpl.
    rewrite !length_fmap.
    repeat split; apply valid_vars_spec.
  - intros e Hp. by rewrite (forward_raise _ _ _ Hp).
Qed.

Lemma getattr_lazy_other_none name function w n :
  quiet function → n ≠ name →
  __dict__ (self w) !! n = None →
  __dict__ (self (getattr_lazy name function w).2) !! n = None.
Proof.
  intros Hq Hne Hn. destruct (__dict__ (self w) !! name) as [v|] eqn:Hl.
  - by rewrite (getattr_lazy_cached _ _ _ _ Hl).
  - destruct (getattr_lazy_first name function w Hq Hl)
      as (v & w' & g & extra & -> & _ & Hs & _). simpl.
    rewrite Hs. simpl. by rewrite lookup_insert_ne.
Qed.

Lemma infer_program_first w :
  __dict__ (self w) !! "_infer_program" = None →
  (_infer_program w).1 = _clone_for_test (_origin_main_program (self w)).
Proof.
  intros Hl.
  destruct (getattr_lazy_first "_infer_program" _infer_program_function w
              infer_function_quiet Hl) as (v & w' & g & extra & Hg & -> & _).
  unfold _infer_program. by rewrite Hg.
Qed.

Lemma infer_program_after_program w :
  __dict__ (self w) !! "_infer_program" = None →
  (_infer_program (program w).2).1
  = _clone_for_test (_origin_main_program (self w)).
Proof.
  intros Hl. rewrite program_eq. destruct (training (self w)).
  - rewrite infer_program_first.
    + destruct (getattr_lazy_frame "_train_program" _train_program_function
                  w train_function_quiet) as (g & d & Hs).
      unfold _train_program. by rewrite Hs.
    + by apply getattr_lazy_other_none; [apply train_function_quiet| |].
  - pose proof (getattr_lazy_stored "_infer_program" _infer_program_function
                  w infer_function_quiet) as Hst.
    fold _infer_program in Hst.
    unfold _infer_program at 1.
    rewrite (getattr_lazy_cached _ _ _ _ Hst). simpl.
    by apply infer_program_first.
Qed.

(** C10 (as the code has it): a forward call whose arguments [_prepare]
    accepts, in either mode, calls the interpreter and leaves the
    inference variant stored on the instance, whether the interpreter
    returns or raises, and the end of the operator range it passes is that
    variant's operator count; when no variant was stored before, it is the
    test clone of the base program. *)
Theorem forward_builds_infer_program (inputs : nest) (w : World) :
  is_ok (_prepare (self w) inputs) = true →
  ∃ infer call tr,
    __dict__ (self (forward inputs w).2) !! "_infer_program" = Some infer
    ∧ trace (forward inputs w).2 = tr ++ [EvRunProgram call]
    ∧ start_op_index call = 0
    ∧ end_op_index call = op_size (global_block infer)
    ∧ is_test call = negb (training (self w))
    ∧ (__dict__ (self w) !! "_infer_program" = None →
       infer = _clone_for_test (_origin_main_program (self w))).
Proof.
  destruct (_prepare (self w) inputs) as [[[iv ov] sc]|e] eqn:Hp; [|done].
  intros _. rewrite (forward_ok _ _ _ _ _ Hp). simpl. frame_after_call.
  eexists _, _, _. split; [|split; [reflexivity|]]; simpl.
  - apply (getattr_lazy_stored "_infer_program" _infer_program_function),
      infer_function_quiet.
  - split; [done|]. split; [done|].
    destruct (program_frame w) as (g & d & Hs).
    destruct (getattr_lazy_frame "_infer_program" _infer_program_function
                (program w).2 infer_function_quiet) as (g' & d' & Hs').
    fold _infer_program in Hs'. rewrite Hs', Hs. simpl. split; [done|].
    apply infer_program_after_program.
Qed.

(** *** The training variant *)

Lemma change_is_test_op_size program is_test :
  op_size (global_block (_change_is_test_status program is_test))
  = op_size (global_block program).
Proof. unfold op_size. simpl. by rewrite length_fmap. Qed.

Lemma change_is_test_blocks_op_size program is_test :
  op_size <$> blocks (_change_is_test_status program is_test)
  = op_size <$> blocks program.
Proof.
  unfold blocks, op_size. simpl. rewrite length_fmap. f_equal.
  rewrite <- list_fmap_compose. apply list_fmap_ext.
  intros i b _. simpl. by rewrite length_fmap.
Qed.

(** C5: when the pruned parameter list is empty, or no declared output is
    a Variable, building the training variant makes no call to
    [backward.gradients]; with an empty parameter list the training variant
    has, block by block, as many operators as the inference variant. *)
Theorem no_backward_without_params_or_targets (w : World) :
  (_params (self w) = []
   ∨ Forall (λ x, ∀ v, x ≠ LVariable v) (tolist (_outputs (self w)))) →
  gradients_calls (trace (_train_program_function w).2)
  = gradients_calls (trace w)
  ∧ (_params (self w) = [] →
     op_size (global_block (_train_program_function w).1)
     = op_size (global_block (_infer_program_function w).1)
     ∧ op_size <$> blocks (_train_program_function w).1
       = op_size <$> blocks (_infer_program_function w).1).
Proof.
  intros Hcase. rewrite train_function_eq, append_backward_desc_eq.
  change (_infer_program_function w).1
    with (_change_is_test_status (_origin_main_program (self w)) true).
  assert (match targets_loop
                  (_change_is_test_status (_origin_main_program (self w)) false)
                  (tolist (_outputs (self w))) [], _params (self w) with
          | _ :: _, _ :: _ => False
          | _, _ => True
          end) as Hno.
  { destruct Hcase as [->|Hout].
    - by destruct (targets_loop _ _ _).
    - by rewrite targets_loop_no_variable. }
  destruct (targets_loop _ _ _) as [|t ts], (_params (self w)) as [|p ps];
    try done; cbn [fst snd trace];
    (split; [done|]; intros Hnil; try done;
     by rewrite !change_is_test_op_size, !change_is_test_blocks_op_size).
Qed.

(** *** Restoring the outputs *)

Lemma get_var_ids_loop_positions idx l acc :
  get_var_ids_loop idx l acc = acc ++ positions idx l.
Proof.
  revert idx acc. induction l as [|x l IH]; intros idx acc; simpl.
  - by rewrite app_nil_r.
  - destruct (is_tensor_leaf x); rewrite IH; [|done].
    by rewrite <- (assoc_L (++)).
Qed.

Lemma get_var_ids_positions raw :
  _get_var_ids raw = positions 0 (flatten raw).
Proof. unfold _get_var_ids, tolist_raw. by rewrite get_var_ids_loop_positions. Qed.

Lemma positions_ge idx l i p :
  positions idx l !! i = Some p → idx ≤ p.
Proof.
  revert idx i. induction l as [|x l IH]; intros idx i; simpl; [done|].
  destruct (is_tensor_leaf x).
  - destruct i as [|i]; simpl.
    + intros [= ->]. lia.
    + intros H%IH. lia.
  - intros H%IH. lia.
Qed.

Lemma scatter_length l vs : length (scatter l vs) = length l.
Proof.
  revert vs. induction l as [|x l IH]; intros vs; simpl; [done|].
  destruct (is_tensor_leaf x); [destruct vs|]; simpl; by rewrite IH.
Qed.

Lemma scatter_other l vs k x :
  l !! k = Some x → is_tensor_leaf x = false → scatter l vs !! k = Some x.
Proof.
  revert vs k. induction l as [|y l IH]; intros vs k; simpl; [done|].
  destruct k as [|k]; simpl.
  - intros [= ->] ->. done.
  - intros Hk Hx. destruct (is_tensor_leaf y); [destruct vs|]; simpl; eauto.
Qed.

Lemma scatter_positions l vs idx i p v :
  positions idx l !! i = Some p → vs !! i = Some v →
  scatter l vs !! (p - idx) = Some (LVarBase v).
Proof.
  revert vs idx i. induction l as [|x l IH]; intros vs idx i; simpl; [done|].
  destruct (is_tensor_leaf x).
  - destruct i as [|i]; simpl.
    + intros [= ->] Hv. destruct vs as [|v0 vs]; simplify_eq/=.
      by rewrite Nat.sub_diag.
    + intros Hp Hv. destruct vs as [|v0 vs]; simplify_eq/=.
      pose proof (positions_ge _ _ _ _ Hp).
      replace (p - idx) with (S (p - S idx)) by lia. simpl. eauto.
  - intros Hp Hv. pose proof (positions_ge _ _ _ _ Hp).
    replace (p - idx) with (S (p - S idx)) by lia. simpl. eauto.
Qed.

Lemma restore_out_loop_scatter l pre i out_vars :
  length (positions (length pre) l) + i ≤ length out_vars →
  restore_out_loop i (positions (length pre) l) out_vars (pre ++ l)
  = Ok (pre ++ scatter l (drop i out_vars)).
Proof.
  revert pre i. induction l as [|x l IH]; intros pre i Hlen; simpl in *.
  - done.
  - destruct (is_tensor_leaf x) eqn:Hx; simpl in *.
    + destruct (lookup_lt_is_Some_2 out_vars i) as [v Hv]; [lia|].
      rewrite Hv, bool_decide_eq_true_2
        by (rewrite length_app; simpl; lia).
      rewrite (drop_S _ _ _ Hv).
      replace (<[length pre:=LVarBase v]> (pre ++ x :: l))
        with ((pre ++ [LVarBase v]) ++ l).
      2:{ rewrite insert_app_r_alt, Nat.sub_diag by lia. simpl.
          by rewrite <- (assoc_L (++)). }
      specialize (IH (pre ++ [LVarBase v]) (S i)).
      rewrite length_app in IH. simpl in IH.
      rewrite Nat.add_1_r in IH. rewrite IH by lia.
      by rewrite <- (assoc_L (++)).
    + specialize (IH (pre ++ [x]) i).
      rewrite length_app in IH. simpl in IH.
      rewrite Nat.add_1_r, <- (assoc_L (++)) in IH. simpl in IH.
      rewrite IH by lia. by rewrite <- (assoc_L (++)).
Qed.

(** C4 (as the code has it): given one executed tensor per recorded tensor
    position, the tensors are put at the recorded positions of the
    flattened template, the other leaves stay, and the restored structure
    has the composition of the template.  What [_restore_out] returns is
    told from that structure, whatever the template: [None], and a tuple,
    list or dict whose length is not one, are returned as they are; of a
    tuple or list of exactly one element that element is returned; a dict
    of exactly one entry raises KeyError, its key being no [0]; and a bare
    value other than [None] is asked for its length, which may raise, and
    is returned as it is unless that length is one, when its element [0]
    is returned. *)
Theorem restore_out_spec (s : PartialProgramLayer) (out_vars : list VarBase) :
  var_ids (_outputs s) = _get_var_ids (raw_input (_outputs s)) →
  length out_vars = length (var_ids (_outputs s)) →
  ∃ outs,
    restore (_outputs s) (scatter (tolist (_outputs s)) out_vars) = Ok outs
    ∧ same_structure (raw_input (_outputs s)) outs = true
    ∧ (∀ k x, tolist (_outputs s) !! k = Some x →
              is_tensor_leaf x = false → flatten outs !! k = Some x)
    ∧ (∀ i idx v, var_ids (_outputs s) !! i = Some idx →
                  out_vars !! i = Some v →
                  flatten outs !! idx = Some (LVarBase v))
    ∧ match outs with
      | NTuple [x] | NList [x] => _restore_out s out_vars = Ok x
      | NTuple _ | NList _ | Leaf LNone => _restore_out s out_vars = Ok outs
      | NDict [_] => _restore_out s out_vars = Raise KeyError
      | NDict _ => _restore_out s out_vars = Ok outs
      | Leaf x =>
          _restore_out s out_vars
          = match py_len x with
            | Raise e => Raise e
            | Ok n => if bool_decide (n = 1) then py_getitem0 x else Ok outs
            end
      end.
Proof.
  intros Hids Hlen. rewrite get_var_ids_positions in Hids.
  pose proof (restore_out_loop_scatter (flatten (raw_input (_outputs s)))
                [] 0 out_vars) as Hloop.
  cbn [length app] in Hloop. rewrite drop_0, <- Hids in Hloop.
  specialize (Hloop ltac:(lia)).
  destruct (restore_ok (_outputs s) (scatter (tolist (_outputs s)) out_vars))
    as (outs & Hr & Hs & Hf).
  { by rewrite scatter_length. }
  exists outs. split; [done|]. split; [done|]. rewrite Hf.
  split; [intros k x; apply scatter_other|].
  split.
  - intros i idx v Hi Hv. rewrite Hids in Hi.
    pose proof (scatter_positions _ out_vars _ _ _ _ Hi Hv) as Hsc.
    by rewrite Nat.sub_0_r in Hsc.
  - unfold _restore_out. unfold tolist in *. rewrite Hloop. cbv beta iota.
    rewrite Hr. cbv beta iota.
    by destruct outs
      as [[| | | | | |]|[|x [|y xs]]|[|x [|y xs]]|[|kv [|kv' kvs]]].
Qed.

End LayerProperties.

(** * Further properties of the code *)

Section RestProperties.
Context {D : TensorData}.

(** ** NestSequence *)

Lemma positions_elem_of idx l p :
  p ∈ positions idx l ↔
  idx ≤ p ∧ ∃ x, l !! (p - idx) = Some x ∧ is_tensor_leaf x = true.
Proof.
  revert idx. induction l as [|y l IH]; intros idx; simpl.
  - split; [by intros ?%elem_of_nil|]. by intros (_ & x & ? & _).
  - assert (p ∈ positions (S idx) l ↔
            idx < p ∧ ∃ x, (y :: l) !! (p - idx) = Some x
                           ∧ is_tensor_leaf x = true) as Hrest.
    { rewrite IH. split.
      - intros (Hle & x & Hx & Ht). split; [lia|]. exists x.
        replace (p - idx) with (S (p - S idx)) by lia. done.
      - intros (Hlt & x & Hx & Ht). split; [lia|]. exists x.
        replace (p - idx) with (S (p - S idx)) in Hx by lia. done. }
    destruct (is_tensor_leaf y) eqn:Hy.
    + rewrite elem_of_cons, Hrest. split.
      * intros [->|(Hlt & Hx)]; [|split; [lia|done]].
        split; [lia|]. exists y. by rewrite Nat.sub_diag.
      * intros (Hle & x & Hx & Ht).
        destruct (decide (p = idx)) as [->|Hne]; [by left|].
        right. split; [lia|]. eauto.
    + rewrite Hrest. split.
      * intros (Hlt & Hx). split; [lia|done].
      * intros (Hle & x & Hx & Ht). split; [|eauto].
        destruct (decide (p = idx)) as [->|Hne]; [|lia].
        rewrite Nat.sub_diag in Hx. simpl in Hx. congruence.
Qed.

Lemma positions_sorted idx l : StronglySorted lt (positions idx l).
Proof.
  revert idx. induction l as [|y l IH]; intros idx; simpl; [constructor|].
  destruct (is_tensor_leaf y); [|apply IH].
  constructor; [apply IH|].
  apply Forall_forall. intros p [Hle _]%positions_elem_of. lia.
Qed.

Lemma positions_length idx l : length (positions idx l) ≤ length l.
Proof.
  revert idx. induction l as [|y l IH]; intros idx; simpl; [done|].
  destruct (is_tensor_leaf y); simpl; specialize (IH (S idx)); lia.
Qed.

Lemma sorted_lt_NoDup (l : list nat) : StronglySorted lt l → NoDup l.
Proof.
  induction 1 as [|p ps _ IH Hall]; constructor; [|done].
  intros Hin. rewrite Forall_forall in Hall. specialize (Hall p Hin). lia.
Qed.

(** X1: the recorded tensor positions of a nest sequence are exactly the
    indices of its flattened list that hold a Variable or a VarBase; they
    are recorded in strictly increasing order, so none twice, and indexing
    the sequence at a recorded position never raises. *)
Theorem var_ids_spec (raw : nest) :
  let self := NestSequence_init raw in
  (∀ idx, idx ∈ var_ids self ↔
          ∃ x, tolist self !! idx = Some x ∧ is_tensor_leaf x = true)
  ∧ StronglySorted lt (var_ids self)
  ∧ NoDup (var_ids self)
  ∧ length (var_ids self) ≤ length (tolist self)
  ∧ (∀ idx, idx ∈ var_ids self →
            ∃ x, getitem self idx = Ok x ∧ is_tensor_leaf x = true).
Proof.
  intros self. unfold self, NestSequence_init, tolist, getitem.
  cbn [var_ids raw_input]. rewrite get_var_ids_positions.
  assert (∀ idx, idx ∈ positions 0 (flatten raw) ↔
                 ∃ x, flatten raw !! idx = Some x ∧ is_tensor_leaf x = true)
    as Hiff.
  { intros idx. rewrite positions_elem_of, Nat.sub_0_r. split.
    - by intros (_ & H).
    - intros H. split; [lia|done]. }
  split; [exact Hiff|].
  split; [apply positions_sorted|].
  split.
  { apply sorted_lt_NoDup, positions_sorted. }
  split; [apply positions_length|].
  intros idx (x & Hx & Ht)%Hiff. unfold tolist. simpl. rewrite Hx. eauto.
Qed.

(** *** _check_non_variable *)

Lemma set_add_elem_of t t' l : t' ∈ set_add t l ↔ t' = t ∨ t' ∈ l.
Proof.
  unfold set_add. case_bool_decide as Hin.
  - split; [by right|]. by intros [->|?].
  - rewrite elem_of_app, list_elem_of_singleton. tauto.
Qed.

Lemma set_add_NoDup t l : NoDup l → NoDup (set_add t l).
Proof.
  intros Hl. unfold set_add. case_bool_decide as Hin; [done|].
  apply NoDup_app. split; [done|]. split; [|apply NoDup_singleton].
  intros x Hx ->%list_elem_of_singleton. done.
Qed.

Lemma warning_types_loop_spec l acc :
  NoDup acc →
  NoDup (warning_types_loop l acc)
  ∧ ∀ t, t ∈ warning_types_loop l acc ↔
         t ∈ acc ∨ ∃ x, x ∈ l ∧ is_tensor_leaf x = false
                         ∧ type_of x = Some t.
Proof.
  revert acc. induction l as [|y l IH]; intros acc Hacc; simpl.
  - split; [done|]. intros t. split; [by left|].
    intros [?|(x & ?%elem_of_nil & _)]; done.
  - destruct (is_tensor_leaf y) eqn:Hy; simpl.
    + destruct (IH acc Hacc) as [Hnd Hiff]. split; [done|].
      intros t. rewrite Hiff. split.
      * intros [?|(x & Hx & Ht & Hty)]; [by left|].
        right. exists x. rewrite elem_of_cons. eauto.
      * intros [?|(x & [->|Hx]%elem_of_cons & Ht & Hty)];
          [by left|congruence|]. right. eauto.
    + destruct (type_of y) as [ty|] eqn:Hty;
        [|by destruct y; simpl in *].
      destruct (IH (set_add ty acc) (set_add_NoDup ty acc Hacc))
        as [Hnd Hiff].
      split; [done|]. intros t. rewrite Hiff, set_add_elem_of. split.
      * intros [[->|?]|(x & Hx & Ht & Hx')]; [|by left|].
        -- right. exists y. rewrite elem_of_cons. eauto.
        -- right. exists x. rewrite elem_of_cons. eauto.
      * intros [?|(x & [->|Hx]%elem_of_cons & Ht & Hx')];
          [by left; right| |by right; eauto].
        left. left. congruence.
Qed.

(** X2: [_check_non_variable] warns exactly when checking was asked for
    and some flattened value is neither a Variable nor a VarBase; the
    warning names the type of every such value, each once, and no other
    type. *)
Theorem check_non_variable_spec (self : NestSequence) (need_check : bool) :
  (_check_non_variable self need_check = None ↔
   need_check = false ∨ Forall (λ x, is_tensor_leaf x = true) (tolist self))
  ∧ (∀ types, _check_non_variable self need_check = Some types →
       NoDup types
       ∧ ∀ t, t ∈ types ↔ ∃ x, x ∈ tolist self ∧ is_tensor_leaf x = false
                               ∧ type_of x = Some t).
Proof.
  unfold _check_non_variable.
  destruct (warning_types_loop_spec (tolist self) [] (NoDup_nil_2))
    as [Hnd Hiff].
  assert (∀ t, t ∈ warning_types_loop (tolist self) [] ↔
               ∃ x, x ∈ tolist self ∧ is_tensor_leaf x = false
                    ∧ type_of x = Some t) as Hiff'.
  { intros t. rewrite Hiff. split; [|by right].
    by intros [?%elem_of_nil|?]. }
  clear Hiff. destruct need_check.
  - destruct (warning_types_loop (tolist self) []) as [|ty tys] eqn:Hw.
    + split; [|done]. split; [|done]. intros _. right.
      apply Forall_forall. intros x Hx.
      destruct (is_tensor_leaf x) eqn:Ht; [done|].
      destruct (type_of x) as [t|] eqn:Hty; [|by destruct x].
      assert (t ∈ []) as ?%elem_of_nil; [|done]. apply Hiff'. eauto.
    + split.
      * split; [done|]. intros [?|Hall]; [done|].
        assert (ty ∈ ty :: tys) as (x & Hx & Ht & _)%Hiff' by left.
        rewrite Forall_forall in Hall. specialize (Hall x Hx). congruence.
      * intros types [= <-]. done.
  - split; [|done]. split; [by left|done].
Qed.

(** ** Sentinel filtering *)

Lemma without_no_value_Forall (xs : list nest) :
  Forall (λ v, _is_no_value v = false) (without_no_value xs).
Proof.
  induction xs as [|x xs IH]; simpl; [constructor|].
  destruct (_is_no_value x) eqn:Hx; simpl; [done|]. by constructor.
Qed.

Lemma remove_from_sequence_no_sentinel (container : list nest → nest) xs :
  (∀ res, _is_no_value (container res) = false) →
  _is_no_value (remove_from_sequence container xs) = false.
Proof.
  intros Hc. unfold remove_from_sequence.
  pose proof (without_no_value_Forall xs) as Hall.
  cbv zeta.
  destruct (bool_decide (length (without_no_value xs) = 0) && _); [done|].
  destruct (bool_decide (length (without_no_value xs) = 1) && _); [|apply Hc].
  destruct (without_no_value xs) as [|r0 res]; [done|]. by inversion Hall.
Qed.

(** X3: whatever [_remove_no_value] is given, what it returns is never
    itself a sentinel. *)
Theorem remove_no_value_never_sentinel (out_vars : nest) :
  _is_no_value (_remove_no_value out_vars) = false.
Proof.
  destruct out_vars as [x|xs|xs|kvs]; simpl.
  - destruct x as [| |t| | | |]; try done.
    destruct (bool_decide _ && _) eqn:Hs; [done|]. simpl. exact Hs.
  - by apply remove_from_sequence_no_sentinel.
  - by apply remove_from_sequence_no_sentinel.
  - done.
Qed.

(** ** Parameter check *)

Lemma check_entries_loop_bad i pre e post names :
  Forall (λ e, is_Some (as_VarBase e)) pre → as_VarBase e = None →
  check_entries_loop i (pre ++ e :: post) names
  = Raise (TypeError_param_entry (i + length pre)).
Proof.
  intros Hpre He. revert i names.
  induction Hpre as [|p pre [t Ht] _ IH]; intros i names; simpl.
  - rewrite Nat.add_0_r.
    by destruct e as [[| |t| | | |]| | |].
  - destruct p as [[| |t'| | | |]| | |]; simplify_eq/=.
    rewrite IH. do 2 f_equal. lia.
Qed.

(** X4: the type errors of the parameter check come before anything the
    program could cause: parameters that are neither a list nor a tuple
    raise the first TypeError, and otherwise the first entry that is not a
    VarBase raises the second one with its index, whatever the program
    holds; the constructor raises the same. *)
Theorem check_params_type_errors (main_program : Program)
    (inputs outputs : nest) :
  _check_params_all_inited ParamsOther main_program = Raise TypeError_params
  ∧ __init__ main_program inputs outputs (Some ParamsOther)
    = Raise TypeError_params
  ∧ (∀ pre e post,
       Forall (λ e, is_Some (as_VarBase e)) pre → as_VarBase e = None →
       _check_params_all_inited (ParamsSeq (pre ++ e :: post)) main_program
       = Raise (TypeError_param_entry (length pre))
       ∧ __init__ main_program inputs outputs
           (Some (ParamsSeq (pre ++ e :: post)))
         = Raise (TypeError_param_entry (length pre))).
Proof.
  split; [done|]. split; [done|].
  intros pre e post Hpre He.
  pose proof (check_entries_loop_bad 0 pre e post ∅ Hpre He) as Hbad.
  simpl in Hbad. unfold __init__, _check_params_all_inited.
  split; [by rewrite Hbad|]. cbn. by rewrite Hbad.
Qed.

(** ** Double gradients *)

Lemma append_cons a (s t : string) : String a s +:+ t = String a (s +:+ t).
Proof. reflexivity. Qed.

Lemma append_empty (t : string) : EmptyString +:+ t = t.
Proof. reflexivity. Qed.

Lemma prefix_spec (sub s : string) :
  String.prefix sub s = true ↔ ∃ post, s = sub +:+ post.
Proof.
  revert s. induction sub as [|a sub IH]; intros s.
  - setoid_rewrite append_empty.
    destruct s; simpl; (split; [intros _; eexists; reflexivity|done]).
  - setoid_rewrite append_cons. destruct s as [|b s]; simpl.
    + split; [done|]. by intros [post H].
    + destruct (Ascii.ascii_dec a b) as [->|Hne].
      * rewrite IH. split; intros [post H]; exists post; congruence.
      * split; [done|]. intros [post H]. congruence.
Qed.

Lemma str_in_spec (sub s : string) :
  str_in sub s = true ↔ ∃ pre post, s = pre +:+ sub +:+ post.
Proof.
  induction s as [|a s IH]; cbn [str_in].
  - rewrite orb_false_r, prefix_spec. split.
    + intros [post H]. exists EmptyString, post. by rewrite append_empty.
    + intros (pre & post & H). destruct pre as [|b pre].
      * exists post. by rewrite append_empty in H.
      * by rewrite append_cons in H.
  - rewrite orb_true_iff, IH, prefix_spec. split.
    + intros [[post H]|(pre & post & H)].
      * exists EmptyString, post. by rewrite append_empty.
      * exists (String a pre), post. by rewrite append_cons, H.
    + intros (pre & post & H). destruct pre as [|b pre].
      * left. exists post. by rewrite append_empty in H.
      * right. exists pre, post. rewrite append_cons in H. congruence.
Qed.

Lemma double_grads_vars_spec l acc :
  double_grads_vars l acc =
  acc ++ ((λ nv, VarBase_of_desc (desc nv.2) false)
            <$> filter (λ nv, str_in "@GRAD" nv.1 = true) l).
Proof.
  revert acc.
  induction l as [|[name var] l IH]; intros acc; cbn [double_grads_vars].
  - by rewrite filter_nil, app_nil_r.
  - destruct (str_in "@GRAD" name) eqn:Hn.
    + rewrite IH, filter_cons_True by done. by rewrite <- (assoc_L (++)).
    + rewrite IH, filter_cons_False; [done|]. simpl. congruence.
Qed.

Lemma double_grads_blocks_spec l acc :
  double_grads_blocks l acc =
  acc ++ ((λ nv, VarBase_of_desc (desc nv.2) false)
            <$> filter (λ nv, str_in "@GRAD" nv.1 = true)
                  (concat (vars <$> l))).
Proof.
  revert acc.
  induction l as [|b l IH]; intros acc; cbn [double_grads_blocks].
  - simpl. by rewrite app_nil_r.
  - rewrite fmap_cons. cbn [concat].
    rewrite IH, double_grads_vars_spec, filter_app, fmap_app.
    by rewrite <- (assoc_L (++)).
Qed.

(** X5: [_get_double_grads] makes one tensor for every variable, block
    after block in the order of the blocks' variables, whose key holds
    [@GRAD] somewhere, and for no other; each tensor takes name, dtype,
    shape and type from the variable's description, carries no data and is
    not persistable. *)
Theorem get_double_grads_spec (program : Program) :
  _get_double_grads program =
    (λ nv, VarBase_of_desc (desc nv.2) false)
      <$> filter (λ nv, str_in "@GRAD" nv.1 = true)
            (concat (vars <$> blocks program))
  ∧ (∀ name, str_in "@GRAD" name = true ↔
             ∃ pre post, name = pre +:+ "@GRAD" +:+ post)
  ∧ Forall (λ t, numpy t = [] ∧ vb_persistable t = false)
      (_get_double_grads program)
  ∧ (Forall (λ nv, str_in "@GRAD" nv.1 = false)
       (concat (vars <$> blocks program)) →
     _get_double_grads program = []
     ∧ valid_vars (_get_double_grads program) = [Fake_var]).
Proof.
  unfold _get_double_grads. rewrite double_grads_blocks_spec. cbn [app].
  split; [done|]. split; [intros name; apply str_in_spec|].
  split.
  - apply Forall_fmap, Forall_forall. by intros nv _.
  - intros Hall.
    assert (filter (λ nv : string * FVariable, str_in "@GRAD" nv.1 = true)
              (concat (vars <$> blocks program)) = []) as ->; [|done].
    induction Hall as [|nv l Hnv _ IH]; [done|].
    rewrite filter_cons_False; [done|]. congruence.
Qed.

End RestProperties.

(** ** Rewriting the operators of a program *)

Lemma change_is_test_blocks program is_test :
  blocks (_change_is_test_status program is_test)
  = change_block is_test <$> blocks program.
Proof. done. Qed.

Lemma op_view_change_is_test {A} (f : Operator → A) program is_test :
  op_view f (_change_is_test_status program is_test)
  = op_view (λ op, f (set_is_test is_test op)) program.
Proof.
  unfold op_view. rewrite change_is_test_blocks, <- list_fmap_compose.
  apply list_fmap_ext. intros i b _. simpl.
  by rewrite <- list_fmap_compose.
Qed.

Lemma op_view_ext {A} (f g : Operator → A) program :
  (∀ op, f op = g op) → op_view f program = op_view g program.
Proof.
  intros Hfg. unfold op_view. apply list_fmap_ext. intros i b _.
  apply list_fmap_ext. intros j op _. apply Hfg.
Qed.

(** X6: [_change_is_test_status] touches nothing but the value of the
    attribute [is_test]: the operators keep their number, order, types and
    arguments, the blocks keep their variables, every other attribute keeps
    its value, and an operator has [is_test] afterwards exactly when it had
    it before, now with the given value. *)
Theorem change_is_test_status_spec (program : Program) (is_test : bool) :
  let program' := _change_is_test_status program is_test in
  op_view op_type program' = op_view op_type program
  ∧ op_view input_arg_names program' = op_view input_arg_names program
  ∧ op_view output_arg_names program' = op_view output_arg_names program
  ∧ vars <$> blocks program' = vars <$> blocks program
  ∧ (∀ key, key ≠ "is_test" →
       op_view (λ op, attrs op !! key) program'
       = op_view (λ op, attrs op !! key) program)
  ∧ op_view (λ op, attrs op !! "is_test") program'
    = op_view (λ op, (λ _, ABool is_test) <$> attrs op !! "is_test") program.
Proof.
  intros program'. unfold program'. rewrite !op_view_change_is_test.
  split; [apply op_view_ext; intros op; unfold set_is_test;
          by destruct (attrs op !! "is_test")|].
  split; [apply op_view_ext; intros op; unfold set_is_test;
          by destruct (attrs op !! "is_test")|].
  split; [apply op_view_ext; intros op; unfold set_is_test;
          by destruct (attrs op !! "is_test")|].
  split.
  { rewrite change_is_test_blocks, <- list_fmap_compose.
    by apply list_fmap_ext. }
  split.
  - intros key Hkey. setoid_rewrite op_view_change_is_test.
    apply op_view_ext. intros op. unfold set_is_test.
    destruct (attrs op !! "is_test"); [|done]. simpl.
    by rewrite lookup_insert_ne.
  - apply op_view_ext. intros op. unfold set_is_test.
    destruct (attrs op !! "is_test") eqn:Hl; simpl; [|by rewrite Hl].
    by rewrite lookup_insert_eq.
Qed.

Lemma set_is_test_twice a b op :
  set_is_test b (set_is_test a op) = set_is_test b op.
Proof.
  unfold set_is_test at 2. destruct (attrs op !! "is_test") eqn:Hl.
  - unfold set_is_test. simpl. rewrite lookup_insert_eq, Hl.
    by rewrite insert_insert_eq.
  - done.
Qed.

Lemma remove_call_stack_op_twice op :
  remove_call_stack_op (remove_call_stack_op op) = remove_call_stack_op op.
Proof.
  unfold remove_call_stack_op.
  destruct (attrs op !! "op_callstack") eqn:Hl; simpl.
  - by rewrite lookup_delete_eq.
  - by rewrite Hl.
Qed.

Lemma remove_call_stack_set_is_test b op :
  remove_call_stack_op (set_is_test b op)
  = set_is_test b (remove_call_stack_op op).
Proof.
  unfold remove_call_stack_op, set_is_test.
  destruct (attrs op !! "is_test") eqn:Ht,
           (attrs op !! "op_callstack") eqn:Hc; simpl;
    rewrite ?lookup_insert_ne, ?lookup_delete_ne, ?Ht, ?Hc by done;
    try done.
  by rewrite delete_insert_ne.
Qed.

Lemma change_is_test_map_ops program is_test :
  _change_is_test_status program is_test
  = map_ops (set_is_test is_test) program.
Proof. reflexivity. Qed.

Lemma remove_op_call_stack_map_ops program :
  _remove_op_call_stack program = map_ops remove_call_stack_op program.
Proof. reflexivity. Qed.

Lemma blocks_map_ops (g : Operator → Operator) program :
  blocks (map_ops g program)
  = (λ block, {| ops := g <$> ops block; vars := vars block |})
      <$> blocks program.
Proof. done. Qed.

Lemma op_view_map_ops {A} (f : Operator → A) (g : Operator → Operator)
    program :
  op_view f (map_ops g program) = op_view (λ op, f (g op)) program.
Proof.
  unfold op_view. rewrite blocks_map_ops, <- list_fmap_compose.
  apply list_fmap_ext. intros i b _. simpl.
  by rewrite <- list_fmap_compose.
Qed.

Lemma vars_map_ops (g : Operator → Operator) program :
  vars <$> blocks (map_ops g program) = vars <$> blocks program.
Proof.
  rewrite blocks_map_ops, <- list_fmap_compose. by apply list_fmap_ext.
Qed.

Lemma map_ops_compose (f g : Operator → Operator) program :
  map_ops f (map_ops g program) = map_ops (f ∘ g) program.
Proof.
  unfold map_ops. cbn [global_block sub_blocks ops vars]. f_equal.
  - f_equal. by rewrite <- list_fmap_compose.
  - rewrite <- list_fmap_compose. apply list_fmap_ext. intros i b _. simpl.
    by rewrite <- list_fmap_compose.
Qed.

Lemma map_ops_ext (f g : Operator → Operator) program :
  (∀ op, f op = g op) → map_ops f program = map_ops g program.
Proof.
  intros Hfg. unfold map_ops. f_equal.
  - f_equal. apply list_fmap_ext. intros i op _. apply Hfg.
  - apply list_fmap_ext. intros i b _. f_equal.
    apply list_fmap_ext. intros j op _. apply Hfg.
Qed.

(** X7: setting the status twice is setting it to the second value: in
    particular the function is idempotent, and the training and the test
    setting of one program can be reached from each other. *)
Theorem change_is_test_status_twice (program : Program) (a b : bool) :
  _change_is_test_status (_change_is_test_status program a) b
  = _change_is_test_status program b.
Proof.
  rewrite (change_is_test_map_ops program a).
  rewrite (change_is_test_map_ops program b).
  rewrite (change_is_test_map_ops (map_ops _ program) b).
  rewrite map_ops_compose.
  apply map_ops_ext. intros op. apply set_is_test_twice.
Qed.

(** X8: after [_remove_op_call_stack] no operator of any block has the
    attribute [op_callstack]; number, order, types and arguments of the
    operators, the variables and every other attribute are as before;
    removing twice is removing once, and removing commutes with setting the
    test status. *)
Theorem remove_op_call_stack_spec (program : Program) :
  let program' := _remove_op_call_stack program in
  op_view (λ op, attrs op !! "op_callstack") program'
  = op_view (λ _, None) program
  ∧ op_view op_type program' = op_view op_type program
  ∧ op_view input_arg_names program' = op_view input_arg_names program
  ∧ op_view output_arg_names program' = op_view output_arg_names program
  ∧ vars <$> blocks program' = vars <$> blocks program
  ∧ (∀ key, key ≠ "op_callstack" →
       op_view (λ op, attrs op !! key) program'
       = op_view (λ op, attrs op !! key) program)
  ∧ _remove_op_call_stack program' = program'
  ∧ (∀ is_test,
       _remove_op_call_stack (_change_is_test_status program is_test)
       = _change_is_test_status program' is_test).
Proof.
  intros program'. unfold program'.
  assert (∀ A (f : Operator → A),
            op_view f (_remove_op_call_stack program)
            = op_view (λ op, f (remove_call_stack_op op)) program) as Hview.
  { intros A f. rewrite remove_op_call_stack_map_ops. apply op_view_map_ops. }
  rewrite !Hview.
  split.
  { apply op_view_ext. intros op. unfold remove_call_stack_op.
    destruct (attrs op !! "op_callstack") eqn:Hl; simpl; [|done].
    by rewrite lookup_delete_eq. }
  split; [apply op_view_ext; intros op; unfold remove_call_stack_op;
          by destruct (attrs op !! "op_callstack")|].
  split; [apply op_view_ext; intros op; unfold remove_call_stack_op;
          by destruct (attrs op !! "op_callstack")|].
  split; [apply op_view_ext; intros op; unfold remove_call_stack_op;
          by destruct (attrs op !! "op_callstack")|].
  split; [rewrite remove_op_call_stack_map_ops; apply vars_map_ops|].
  split.
  { intros key Hkey. rewrite Hview. apply op_view_ext. intros op.
    unfold remove_call_stack_op.
    destruct (attrs op !! "op_callstack"); [|done]. simpl.
    by rewrite lookup_delete_ne. }
  split.
  - rewrite (remove_op_call_stack_map_ops program).
    rewrite (remove_op_call_stack_map_ops (map_ops _ program)).
    rewrite map_ops_compose.
    apply map_ops_ext. intros op. apply remove_call_stack_op_twice.
  - intros is_test.
    rewrite (remove_op_call_stack_map_ops program).
    rewrite (change_is_test_map_ops program).
    rewrite (remove_op_call_stack_map_ops (map_ops _ program)).
    rewrite (change_is_test_map_ops (map_ops _ program)).
    rewrite !map_ops_compose.
    apply map_ops_ext. intros op. apply remove_call_stack_set_is_test.
Qed.


(** ** The layer, continued *)

Section RestLayerProperties.
Context {D : TensorData} {F : Framework}.

(** *** _prepare *)

Lemma input_name_ok s i name :
  input_name s i = Ok name →
  ∃ var, tolist (_inputs s) !! i = Some (LVariable var)
         ∧ name = var_name var.
Proof.
  unfold input_name, getitem.
  destruct (tolist (_inputs s) !! i) as [[|var| | | | |]|]; try done.
  intros [= <-]. eauto.
Qed.

Lemma prepare_inputs_loop_ok s i l acc r :
  prepare_inputs_loop s i l acc = Ok r →
  ∃ new, r = acc ++ new
         ∧ Forall2 (prepared (tolist (_inputs s))) (indexed_arrays i l) new.
Proof.
  revert i acc. induction l as [|x l IH]; intros i acc; simpl.
  - intros [= <-]. exists []. by rewrite app_nil_r.
  - destruct x as [|v|t|a|z|b|str]; simpl; try (by apply IH).
    + destruct (input_name s i) as [name|] eqn:Hn; [|done].
      intros (new & -> & Hnew)%IH.
      destruct (input_name_ok _ _ _ Hn) as (var & Hvar & ->).
      eexists (_ :: new). rewrite <- (assoc_L (++)). split; [done|].
      constructor; [|done]. exists var. simpl.
      destruct (stop_gradient t) eqn:Hsg; repeat split; try done;
        by intros b [= <-].
    + destruct (input_name s i) as [name|] eqn:Hn; [|done].
      intros (new & -> & Hnew)%IH.
      destruct (input_name_ok _ _ _ Hn) as (var & Hvar & ->).
      eexists (_ :: new). rewrite <- (assoc_L (++)). split; [done|].
      constructor; [|done]. by exists var.
Qed.

Lemma prepare_outputs_loop_ok s ids acc r :
  prepare_outputs_loop s ids acc = Ok r →
  ∃ new, r = acc ++ new
         ∧ Forall2 (placeholder (tolist (_outputs s))) ids new.
Proof.
  revert acc. induction ids as [|idx ids IH]; intros acc; simpl.
  - intros [= <-]. exists []. by rewrite app_nil_r.
  - unfold getitem.
    destruct (tolist (_outputs s) !! idx) as [[|var| | | | |]|] eqn:Hl;
      try done.
    intros (new & -> & Hnew)%IH.
    eexists (_ :: new). rewrite <- (assoc_L (++)). split; [done|].
    constructor; [|done]. by exists var.
Qed.

(** X9: when [_prepare] returns, the inputs were a tuple or a list; there
    is one input tensor for every ndarray or VarBase among the flattened
    inputs, in their order, carrying the value's data and shape (and the
    gradient flag of a VarBase), the template holds a Variable at the same
    index, and an input tensor that is built anew (from an ndarray, or
    from a VarBase that requires no gradient) is named after that
    Variable; the other values are left out; there is one empty
    placeholder for every recorded position of the output template, built
    from the Variable at that position; and the scope tensor is the fixed
    one. *)
Theorem prepare_spec (s : PartialProgramLayer) (inputs : nest)
    (in_vars out_vars : list VarBase) (scope_vec : VarBase) :
  _prepare s inputs = Ok (in_vars, out_vars, scope_vec) →
  ((∃ xs, inputs = NTuple xs) ∨ (∃ xs, inputs = NList xs))
  ∧ Forall2 (prepared (tolist (_inputs s)))
      (indexed_arrays 0 (flatten inputs)) in_vars
  ∧ length in_vars = length (filter (λ x, is_array_like x = true)
                               (flatten inputs))
  ∧ Forall2 (placeholder (tolist (_outputs s))) (var_ids (_outputs s))
      out_vars
  ∧ length out_vars = length (var_ids (_outputs s))
  ∧ scope_vec = tmp_scope_vec.
Proof.
  intros Hp. unfold _prepare in Hp.
  assert (∀ i l, length (indexed_arrays i l)
                 = length (filter (λ x, is_array_like x = true) l)) as Hlen.
  { intros i l. revert i. induction l as [|x l IH]; intros i; simpl; [done|].
    destruct (is_array_like x) eqn:Hx.
    - rewrite filter_cons_True by done. simpl. by rewrite IH.
    - rewrite filter_cons_False by congruence. apply IH. }
  assert (prepare_inputs_loop s 0 (flatten inputs) [] = Ok in_vars
          ∧ prepare_outputs_loop s (var_ids (_outputs s)) [] = Ok out_vars
          ∧ scope_vec = tmp_scope_vec
          ∧ ((∃ xs, inputs = NTuple xs) ∨ (∃ xs, inputs = NList xs)))
    as (Hin & Hout & Hsc & Hkind).
  { destruct inputs as [x|xs|xs|kvs]; try done;
      destruct (prepare_inputs_loop s 0 _ []) as [iv|]; try done;
      destruct (prepare_outputs_loop s _ []) as [ov|]; try done;
      simplify_eq; eauto 10. }
  destruct (prepare_inputs_loop_ok _ _ _ _ _ Hin) as (new & -> & Hnew).
  destruct (prepare_outputs_loop_ok _ _ _ _ Hout) as (new' & -> & Hnew').
  simpl. split; [done|]. split; [done|].
  split; [by rewrite <- (Forall2_length _ _ _ Hnew), Hlen|].
  split; [done|]. split; [by rewrite (Forall2_length _ _ _ Hnew')|done].
Qed.

Lemma prepare_inputs_loop_skip s i pre rest acc :
  Forall (λ x, is_array_like x = false) pre →
  prepare_inputs_loop s i (pre ++ rest) acc
  = prepare_inputs_loop s (i + length pre) rest acc.
Proof.
  intros Hpre. revert i.
  induction Hpre as [|x pre Hx _ IH]; intros i; simpl.
  - by rewrite Nat.add_0_r.
  - rewrite <- Nat.add_succ_comm, <- IH.
    by destruct x.
Qed.

(** X10: [_prepare] raises AssertionError for inputs that are neither a
    tuple nor a list, and IndexError when the first ndarray or VarBase
    among the flattened inputs stands at an index that the flattened input
    template does not have. *)
Theorem prepare_errors (s : PartialProgramLayer) (inputs : nest) :
  ((∀ xs, inputs ≠ NTuple xs) → (∀ xs, inputs ≠ NList xs) →
   _prepare s inputs = Raise AssertionError)
  ∧ (∀ pre x post,
       (∃ xs, inputs = NTuple xs) ∨ (∃ xs, inputs = NList xs) →
       flatten inputs = pre ++ x :: post →
       Forall (λ y, is_array_like y = false) pre →
       is_array_like x = true →
       length (tolist (_inputs s)) ≤ length pre →
       _prepare s inputs = Raise IndexError).
Proof.
  split.
  - intros Ht Hl. destruct inputs as [x|xs|xs|kvs]; try done.
    + by destruct (Ht xs).
    + by destruct (Hl xs).
  - intros pre x post Hkind Hflat Hpre Hx Hlen.
    assert (prepare_inputs_loop s 0 (flatten inputs) [] = Raise IndexError)
      as Hloop.
    { rewrite Hflat, (prepare_inputs_loop_skip s 0 pre _ [] Hpre). simpl.
      assert (input_name s (length pre) = Raise IndexError) as Hn.
      { unfold input_name, getitem.
        by rewrite (lookup_ge_None_2 (tolist (_inputs s)) (length pre)). }
      destruct x; try done; simpl; by rewrite Hn. }
    unfold _prepare.
    destruct Hkind as [[xs ->]|[xs ->]]; by rewrite Hloop.
Qed.

(** *** _restore_out *)

Lemma restore_out_loop_short l pre i out_vars :
  i ≤ length out_vars →
  length out_vars < length (positions (length pre) l) + i →
  restore_out_loop i (positions (length pre) l) out_vars (pre ++ l)
  = Raise IndexError.
Proof.
  revert pre i. induction l as [|x l IH]; intros pre i Hi Hlen; simpl in *.
  - lia.
  - destruct (is_tensor_leaf x) eqn:Hx; simpl in *.
    + destruct (out_vars !! i) as [v|] eqn:Hv; [|done].
      apply lookup_lt_Some in Hv as Hi'.
      rewrite bool_decide_eq_true_2 by (rewrite length_app; simpl; lia).
      replace (<[length pre:=LVarBase v]> (pre ++ x :: l))
        with ((pre ++ [LVarBase v]) ++ l).
      2:{ rewrite insert_app_r_alt, Nat.sub_diag by lia. simpl.
          by rewrite <- (assoc_L (++)). }
      specialize (IH (pre ++ [LVarBase v]) (S i)).
      rewrite length_app in IH. simpl in IH.
      rewrite Nat.add_1_r in IH. apply IH; lia.
    + specialize (IH (pre ++ [x]) i).
      rewrite length_app in IH. simpl in IH.
      rewrite Nat.add_1_r, <- (assoc_L (++)) in IH. simpl in IH.
      apply IH; lia.
Qed.

Lemma scatter_take l idx n vs :
  length (positions idx l) ≤ n → scatter l (take n vs) = scatter l vs.
Proof.
  revert idx n vs. induction l as [|x l IH]; intros idx n vs; simpl; [done|].
  destruct (is_tensor_leaf x); simpl.
  - intros Hn. destruct n as [|n]; [lia|].
    destruct vs as [|v vs]; simpl; [done|].
    f_equal. apply (IH (S idx)). lia.
  - intros Hn. f_equal. by apply (IH (S idx)).
Qed.

(** X11: with fewer tensors than recorded positions [_restore_out] raises
    IndexError; with more, the surplus is ignored. *)
Theorem restore_out_arity (s : PartialProgramLayer) (out_vars : list VarBase) :
  var_ids (_outputs s) = _get_var_ids (raw_input (_outputs s)) →
  (length out_vars < length (var_ids (_outputs s)) →
   _restore_out s out_vars = Raise IndexError)
  ∧ (length (var_ids (_outputs s)) ≤ length out_vars →
     _restore_out s out_vars
     = _restore_out s (take (length (var_ids (_outputs s))) out_vars)).
Proof.
  intros Hids. rewrite get_var_ids_positions in Hids. split.
  - intros Hlen. unfold _restore_out, tolist.
    pose proof (restore_out_loop_short (flatten (raw_input (_outputs s)))
                  [] 0 out_vars) as Hloop.
    cbn [length app] in Hloop. rewrite <- Hids in Hloop.
    rewrite Hloop by lia. done.
  - intros Hlen. unfold _restore_out, tolist.
    pose proof (restore_out_loop_scatter (flatten (raw_input (_outputs s)))
                  [] 0 out_vars) as Hloop.
    pose proof (restore_out_loop_scatter (flatten (raw_input (_outputs s)))
                  [] 0 (take (length (var_ids (_outputs s))) out_vars))
      as Hloop'.
    cbn [length app] in Hloop, Hloop'.
    rewrite !drop_0, <- Hids in Hloop, Hloop'.
    rewrite Hloop by lia.
    rewrite Hloop' by (rewrite length_take; lia).
    rewrite (scatter_take _ 0); [done|]. by rewrite <- Hids.
Qed.

(** *** Construction *)

Lemma check_entries_loop_inv i entries names r :
  check_entries_loop i entries names = Ok r →
  Forall (λ e, is_Some (as_VarBase e)) entries
  ∧ r = names ∪ param_names entries.
Proof.
  revert i names. induction entries as [|e entries IH]; intros i names; simpl.
  - intros [= <-]. split; [done|].
    unfold param_names. simpl. by rewrite (right_id_L ∅ (∪)).
  - destruct e as [[| |t| | | |]| | |]; try done.
    intros [Hall ->]%IH. split; [constructor; [by eexists|done]|].
    unfold param_names. simpl. by rewrite (assoc_L (∪)).
Qed.

(** X12: an instance that the constructor returns starts in training mode
    with no variant stored; it keeps the program, the two templates and
    the recorded output positions as given; the supplied parameters were
    all VarBase and name every Variable of the Parameter class that the
    program defines; and the parameters it keeps are supplied ones that
    some operator of the program refers to. *)
Theorem init_invariants (main_program : Program) (inputs outputs : nest)
    (parameters : option params_arg) (s : PartialProgramLayer) :
  __init__ main_program inputs outputs parameters = Ok s →
  training s = true ∧ __dict__ s = ∅
  ∧ _origin_main_program s = main_program
  ∧ raw_input (_inputs s) = inputs ∧ raw_input (_outputs s) = outputs
  ∧ var_ids (_outputs s) = _get_var_ids (raw_input (_outputs s))
  ∧ _double_grads s = _get_double_grads main_program
  ∧ ∃ entries,
      default (ParamsSeq []) parameters = ParamsSeq entries
      ∧ Forall (λ e, is_Some (as_VarBase e)) entries
      ∧ (∀ block name var,
           block ∈ blocks main_program → (name, var) ∈ vars block →
           is_parameter var = true → name ∈ param_names entries)
      ∧ _params s `sublist_of` omap as_VarBase entries
      ∧ Forall (λ p, Leaf (LVarBase p) ∈ entries
                     ∧ referenced main_program (vb_name p)) (_params s).
Proof.
  unfold __init__, _check_params_all_inited.
  destruct (default (ParamsSeq []) parameters) as [entries|]; [|done].
  destruct (check_entries_loop 0 entries ∅) as [names|] eqn:Hnames; [|done].
  destruct (check_entries_loop_inv _ _ _ _ Hnames) as [Hall ->].
  rewrite (left_id_L ∅ (∪)).
  pose proof (check_blocks_loop_spec (blocks main_program)
                (param_names entries)) as Hblocks.
  destruct (check_blocks_loop _ _) as [[]|]; [|done].
  intros [= <-]. cbn [training __dict__ _origin_main_program _inputs _outputs
                      _double_grads _params raw_input var_ids NestSequence_init].
  do 7 (split; [done|]). exists entries.
  split; [done|]. split; [done|]. split; [done|].
  rewrite prune_filter. split; [apply sublist_filter|].
  apply Forall_forall. intros p [Hr Hp]%list_elem_of_filter.
  split; [|done].
  apply list_elem_of_omap in Hp as (e & He & Hep).
  by destruct e as [[| |t| | | |]| | |]; simplify_eq/=.
Qed.

(** *** Reading the lazy attributes *)

Lemma getattr_lazy_none name function w :
  __dict__ (self w) !! name = None →
  let r := function {| self := self w;
                       trace := trace w ++ [EvFunction name] |} in
  getattr_lazy name function w
  = (r.1, {| self := with_dict (<[name := r.1]> (__dict__ (self r.2)))
                       (self r.2);
             trace := trace r.2 |}).
Proof.
  intros Hl. unfold getattr_lazy. rewrite Hl.
  unfold LazyInitialized_get, bind, emit, setattr, ret.
  by destruct (function _) as [val w1].
Qed.

(** X13: the two lazy attributes are independent: reading one of them
    never changes whether the other is stored, nor the value stored for
    it. *)
Theorem lazy_attributes_independent (w : World) :
  __dict__ (self (_train_program w).2) !! "_infer_program"
  = __dict__ (self w) !! "_infer_program"
  ∧ __dict__ (self (_infer_program w).2) !! "_train_program"
    = __dict__ (self w) !! "_train_program".
Proof.
  split.
  - destruct (__dict__ (self w) !! "_infer_program") as [val|] eqn:Hl.
    + by apply getattr_lazy_keeps; [apply train_function_quiet|].
    + by apply getattr_lazy_other_none; [apply train_function_quiet| |].
  - destruct (__dict__ (self w) !! "_train_program") as [val|] eqn:Hl.
    + by apply getattr_lazy_keeps; [apply infer_function_quiet|].
    + by apply getattr_lazy_other_none; [apply infer_function_quiet| |].
Qed.

(** *** The training variant *)

Lemma targets_loop_omap program outs acc :
  targets_loop program outs acc =
  acc ++ ((λ v, block_var (global_block program) (var_name v))
            <$> omap as_Variable outs).
Proof.
  revert acc. induction outs as [|x outs IH]; intros acc; simpl.
  - by rewrite app_nil_r.
  - destruct x; simpl; rewrite IH; try done.
    by rewrite <- (assoc_L (++)).
Qed.

(** X14: [_append_backward_desc] asks for gradients exactly when the
    output template holds a Variable and there is a parameter, and then
    once: the targets are the Variables of the flattened output template,
    in order, each looked up by name in the global block of the clone whose
    test status was cleared; otherwise that clone is returned and no call
    is made. *)
Theorem append_backward_desc_spec (main_program : Program) (w : World) :
  let program :=
    _change_is_test_status (Program_clone main_program false) false in
  let targets :=
    (λ v, block_var (global_block program) (var_name v))
      <$> omap as_Variable (tolist (_outputs (self w))) in
  (targets ≠ [] → _params (self w) ≠ [] →
   _append_backward_desc main_program w
   = (gradients program targets,
      {| self := self w; trace := trace w ++ [EvGradients targets] |}))
  ∧ (targets = [] ∨ _params (self w) = [] →
     _append_backward_desc main_program w = (program, w)).
Proof.
  intros program targets.
  pose proof (append_backward_desc_eq main_program w) as Heq.
  cbv zeta in Heq. rewrite targets_loop_omap in Heq. cbn [app] in Heq.
  unfold Program_clone in program. fold program targets in Heq.
  rewrite Heq. split.
  - intros Ht Hp. by destruct targets, (_params (self w)).
  - intros [->| ->]; [done|]. by destruct targets.
Qed.

Lemma same_but_grad_type_refl t : same_but_grad_type t t.
Proof. by repeat split. Qed.

Lemma same_but_grad_type_trans t1 t2 t3 :
  same_but_grad_type t1 t2 → same_but_grad_type t2 t3 →
  same_but_grad_type t1 t3.
Proof.
  intros (? & ? & ? & ? & ? & ? & ?) (? & ? & ? & ? & ? & ? & ?).
  repeat split; congruence.
Qed.

Lemma same_layer_refl s : same_layer s s.
Proof.
  repeat split. apply Forall2_same_length_lookup. split; [done|].
  intros i t t' ? ?. simplify_eq. apply same_but_grad_type_refl.
Qed.

Lemma same_layer_trans s1 s2 s3 :
  same_layer s1 s2 → same_layer s2 s3 → same_layer s1 s3.
Proof.
  intros (? & ? & ? & ? & H12) (? & ? & ? & ? & H23).
  repeat split; try congruence.
  eapply Forall2_trans; [|done..]. apply same_but_grad_type_trans.
Qed.

Lemma same_layer_with_dict d s : same_layer s (with_dict d s).
Proof. destruct (same_layer_refl s) as (? & ? & ? & ? & ?). by repeat split. Qed.

Lemma same_layer_set_grad_type tp s :
  same_layer s (with_params (set_grad_type_of tp <$> _params s) s).
Proof.
  repeat split. simpl. apply Forall2_fmap_r, Forall2_same_length_lookup.
  split; [done|]. intros i t t' ? ?. simplify_eq.
  unfold compose, set_grad_type_of. destruct (find_var _ _); by repeat split.
Qed.

Lemma train_function_self w :
  self (_train_program_function w).2
  = with_params
      (set_grad_type_of (_train_program_function w).1 <$> _params (self w))
      (self w).
Proof.
  rewrite train_function_eq, append_backward_desc_eq. cbv zeta.
  destruct (targets_loop _ _ _), (_params (self w)) eqn:Hp;
    simpl; by rewrite ?Hp.
Qed.

(** X15: building the training variant changes nothing of the instance
    but the gradient types of the parameters: a parameter whose gradient
    Variable (its name followed by the gradient suffix) is found in the
    global block of the new program takes that Variable's type, any other
    parameter keeps its own; names, data and order of the parameters
    stay. *)
Theorem train_program_sets_grad_type (w : World) :
  let train_program := (_train_program_function w).1 in
  let s' := self (_train_program_function w).2 in
  same_layer (self w) s'
  ∧ training s' = training (self w)
  ∧ __dict__ s' = __dict__ (self w)
  ∧ grad_type <$> _params s'
    = grad_type_after train_program <$> _params (self w).
Proof.
  intros train_program s'. unfold s', train_program.
  rewrite train_function_self.
  split; [apply same_layer_set_grad_type|]. split; [done|]. split; [done|].
  simpl. rewrite <- list_fmap_compose. apply list_fmap_ext.
  intros i p _. simpl. unfold set_grad_type_of, grad_type_after.
  by destruct (find_var _ _).
Qed.

(** *** Calls *)

Lemma getattr_lazy_same_layer name function w :
  (∀ w0, same_layer (self w0) (self (function w0).2)) →
  same_layer (self w) (self (getattr_lazy name function w).2).
Proof.
  intros Hf. destruct (__dict__ (self w) !! name) as [val|] eqn:Hl.
  - rewrite (getattr_lazy_cached _ _ _ _ Hl). apply same_layer_refl.
  - rewrite (getattr_lazy_none _ _ _ Hl). cbv zeta. simpl.
    eapply same_layer_trans; [|apply same_layer_with_dict].
    apply (Hf {| self := self w; trace := trace w ++ [EvFunction name] |}).
Qed.

Lemma train_program_same_layer w :
  same_layer (self w) (self (_train_program w).2).
Proof.
  apply getattr_lazy_same_layer. intros w0.
  rewrite train_function_self. apply same_layer_set_grad_type.
Qed.

Lemma infer_program_self w :
  ∃ d, self (_infer_program w).2 = with_dict d (self w).
Proof.
  unfold _infer_program.
  destruct (__dict__ (self w) !! "_infer_program") as [val|] eqn:Hl.
  - rewrite (getattr_lazy_cached _ _ _ _ Hl). exists (__dict__ (self w)).
    simpl. by destruct (self w).
  - rewrite (getattr_lazy_none _ _ _ Hl). cbv zeta. simpl. eauto.
Qed.

Lemma infer_program_trace w :
  trace (_infer_program w).2 = trace w
  ∨ trace (_infer_program w).2 = trace w ++ [EvFunction "_infer_program"].
Proof.
  unfold _infer_program.
  destruct (__dict__ (self w) !! "_infer_program") as [val|] eqn:Hl.
  - rewrite (getattr_lazy_cached _ _ _ _ Hl). by left.
  - rewrite (getattr_lazy_none _ _ _ Hl). cbv zeta. simpl. by right.
Qed.

Lemma infer_program_same_layer w :
  same_layer (self w) (self (_infer_program w).2).
Proof.
  destruct (infer_program_self w) as [d ->]. apply same_layer_with_dict.
Qed.

Lemma program_same_layer w : same_layer (self w) (self (program w).2).
Proof.
  rewrite program_eq. destruct (training (self w)).
  - apply train_program_same_layer.
  - apply infer_program_same_layer.
Qed.

Lemma program_training w :
  training (self (program w).2) = training (self w).
Proof. destruct (program_frame w) as (g & d & ->). done. Qed.

Lemma infer_program_training w :
  training (self (_infer_program w).2) = training (self w).
Proof. destruct (infer_program_self w) as [d ->]. done. Qed.



Lemma restore_out_outputs s s' out_vars :
  _outputs s' = _outputs s → _restore_out s' out_vars = _restore_out s out_vars.
Proof. intros H. unfold _restore_out. by rewrite H. Qed.

Lemma forward_ok_result inputs w in_vars out_vars sc :
  _prepare (self w) inputs = Ok (in_vars, out_vars, sc) →
  let w1 := (program w).2 in
  let w2 := (_infer_program w1).2 in
  let call :=
    {| X := valid_vars in_vars;
       Params := valid_vars (_params (self w2));
       Out := valid_vars out_vars;
       OutScope := sc;
       DOut := valid_vars (_double_grads (self w2));
       call_global_block := global_block (program w).1;
       start_op_index := 0;
       end_op_index := op_size (global_block (_infer_program w1).1);
       is_test := negb (training (self w2)) |} in
  (forward inputs w).1
  = match run_program call with
    | Raise e => Raise e
    | Ok written =>
        match _restore_out (self w) (imap (Out_after written) out_vars) with
        | Ok restored_nest_out => Ok (_remove_no_value restored_nest_out)
        | Raise e => Raise e
        end
    end.
Proof.
  intros H. cbv zeta.
  assert (∀ ov, _restore_out (self w) ov
                = _restore_out (self (_infer_program (program w).2).2) ov)
    as Hout.
  { intros ov. apply restore_out_outputs.
    pose proof (program_same_layer w) as (_ & Ho1 & _).
    pose proof (infer_program_same_layer (program w).2) as (_ & Ho2 & _).
    congruence. }
  unfold forward, bind, get_self. simpl. rewrite H.
  destruct (program w) as [prog w1]. simpl in *.
  destruct (_infer_program w1) as [infer w2]. simpl in *.
  destruct (run_program _) as [written|e]; [|done]. simpl.
  rewrite Hout. by destruct (_restore_out (self w2) _).
Qed.

Lemma restore_out_returns s out_vars :
  var_ids (_outputs s) = _get_var_ids (raw_input (_outputs s)) →
  length out_vars = length (var_ids (_outputs s)) →
  (∃ xs, raw_input (_outputs s) = NTuple xs)
  ∨ (∃ xs, raw_input (_outputs s) = NList xs) →
  ∃ restored, _restore_out s out_vars = Ok restored.
Proof.
  intros Hids Hlen Hkind. rewrite get_var_ids_positions in Hids.
  pose proof (restore_out_loop_scatter (flatten (raw_input (_outputs s)))
                [] 0 out_vars) as Hloop.
  cbn [length app] in Hloop. rewrite drop_0, <- Hids in Hloop.
  specialize (Hloop ltac:(lia)).
  destruct (restore_ok (_outputs s)
              (scatter (flatten (raw_input (_outputs s))) out_vars))
    as (outs & Hr & Hs & _).
  { by rewrite scatter_length. }
  unfold _restore_out, tolist. rewrite Hloop. cbv beta iota.
  rewrite Hr. cbv beta iota.
  destruct Hkind as [[xs Hx]|[xs Hx]]; rewrite Hx in Hs;
    destruct outs as [x|ys|ys|kvs]; try done;
    destruct ys as [|y [|y' ys]]; simpl; eauto.
Qed.

(** X17: a forward call whose arguments can be prepared calls the
    interpreter.  When the interpreter raises, the call raises the same
    exception.  When it returns and the output template, with its
    recorded positions, is a tuple or a list, the call returns a value:
    what [_remove_no_value] makes of the restored outputs that the
    interpreter has filled. *)
Theorem forward_returns (inputs : nest) (w : World)
    (in_vars out_vars : list VarBase) (sc : VarBase) :
  _prepare (self w) inputs = Ok (in_vars, out_vars, sc) →
  var_ids (_outputs (self w)) = _get_var_ids (raw_input (_outputs (self w))) →
  (∃ xs, raw_input (_outputs (self w)) = NTuple xs)
  ∨ (∃ xs, raw_input (_outputs (self w)) = NList xs) →
  ∃ call tr,
    trace (forward inputs w).2 = tr ++ [EvRunProgram call]
    ∧ match run_program call with
      | Raise e => (forward inputs w).1 = Raise e
      | Ok written =>
          ∃ restored,
            _restore_out (self w) (imap (Out_after written) out_vars)
            = Ok restored
            ∧ (forward inputs w).1 = Ok (_remove_no_value restored)
      end.
Proof.
  intros Hp Hids Hkind.
  pose proof (forward_ok_result _ _ _ _ _ Hp) as Hres.
  pose proof (forward_ok _ _ _ _ _ Hp) as Htr. cbv zeta in Hres, Htr.
  set (call := {| X := valid_vars in_vars |}) in Hres, Htr.
  exists call, (trace (_infer_program (program w).2).2).
  split; [by rewrite Htr|].
  destruct (run_program call) as [written|e]; [|done].
  destruct (restore_out_returns (self w) (imap (Out_after written) out_vars))
    as [restored Hr]; [done| |done|].
  { rewrite length_imap. unfold _prepare in Hp.
    destruct inputs; try done;
      destruct (prepare_inputs_loop _ _ _ _); try done;
      destruct (prepare_outputs_loop _ _ _) as [ov|] eqn:Ho; try done;
      simplify_eq;
      destruct (prepare_outputs_loop_ok _ _ _ _ Ho) as (new & -> & Hnew);
      by rewrite (Forall2_length _ _ _ Hnew). }
  exists restored. by rewrite Hres, Hr.
Qed.

(** *** Counting the calls *)

Lemma function_runs_snoc name tr n :
  function_runs name (tr ++ [EvFunction n])
  = function_runs name tr + (if bool_decide (n = name) then 1 else 0).
Proof.
  rewrite function_runs_app. f_equal. unfold function_runs.
  case_bool_decide as Hn.
  - rewrite filter_cons_True; [done|]. simpl. by rewrite bool_decide_eq_true_2.
  - rewrite filter_cons_False; [done|]. simpl.
    rewrite bool_decide_eq_false_2 by done. simpl. tauto.
Qed.

Lemma gradients_calls_snoc tr e :
  gradients_calls (tr ++ [e])
  = gradients_calls tr + (if is_gradients_event e then 1 else 0).
Proof.
  rewrite gradients_calls_app. f_equal. unfold gradients_calls.
  destruct (is_gradients_event e) eqn:He.
  - rewrite filter_cons_True; [done|]. by rewrite He.
  - rewrite filter_cons_False; [done|]. rewrite He. simpl. tauto.
Qed.

Lemma function_runs_gradients name tr targets :
  function_runs name (tr ++ [EvGradients targets]) = function_runs name tr.
Proof.
  rewrite function_runs_app. unfold function_runs at 2.
  rewrite filter_cons_False by (simpl; tauto). simpl. lia.
Qed.

Lemma train_function_trace w :
  trace (_train_program_function w).2 = trace w
  ∨ ∃ targets, trace (_train_program_function w).2
               = trace w ++ [EvGradients targets].
Proof.
  rewrite train_function_eq, append_backward_desc_eq. cbv zeta.
  destruct (targets_loop _ _ _), (_params (self w)); simpl; eauto.
Qed.

Lemma train_program_bounded w :
  gradients_bounded w → gradients_bounded (_train_program w).2.
Proof.
  unfold gradients_bounded, _train_program. intros Hw.
  destruct (__dict__ (self w) !! "_train_program") as [val|] eqn:Hl.
  - by rewrite (getattr_lazy_cached _ _ _ _ Hl).
  - rewrite (getattr_lazy_none _ _ _ Hl). cbv zeta. simpl.
    destruct (train_function_trace
                {| self := self w;
                   trace := trace w ++ [EvFunction "_train_program"] |})
      as [->|[targets ->]]; simpl.
    + rewrite gradients_calls_snoc, function_runs_snoc. simpl. lia.
    + rewrite gradients_calls_snoc, function_runs_gradients.
      rewrite gradients_calls_snoc, function_runs_snoc. simpl. lia.
Qed.

Lemma infer_program_bounded w :
  gradients_bounded w → gradients_bounded (_infer_program w).2.
Proof.
  unfold gradients_bounded. intros Hw.
  destruct (infer_program_trace w) as [->| ->]; [done|].
  rewrite gradients_calls_snoc, function_runs_snoc. simpl. lia.
Qed.

Lemma forward_bounded inputs w :
  gradients_bounded w → gradients_bounded (forward inputs w).2.
Proof.
  intros Hw. destruct (_prepare (self w) inputs) as [[[iv ov] sc]|e] eqn:Hp.
  - rewrite (forward_ok _ _ _ _ _ Hp). unfold gradients_bounded. simpl.
    rewrite gradients_calls_snoc, function_runs_run_program. simpl.
    rewrite Nat.add_0_r. apply infer_program_bounded.
    rewrite program_eq. destruct (training (self w)).
    + by apply train_program_bounded.
    + by apply infer_program_bounded.
  - by rewrite (forward_raise _ _ _ Hp).
Qed.

Lemma run_bounded acts w :
  gradients_bounded w → gradients_bounded (run acts w).
Proof.
  revert w. induction acts as [|a acts IH]; intros w Hw; [done|].
  apply IH. destruct a; [by apply forward_bounded|done].
Qed.

(** X18: over any sequence of forward calls and changes of the training
    flag on a new instance, [backward.gradients] is called at most once,
    and never without the function behind the training variant having
    run. *)
Theorem gradients_called_at_most_once (s : PartialProgramLayer)
    (acts : list action) :
  __dict__ s = ∅ →
  let w := run acts {| self := s; trace := [] |} in
  gradients_calls (trace w) ≤ function_runs "_train_program" (trace w)
  ∧ gradients_calls (trace w) ≤ 1.
Proof.
  intros Hempty w.
  assert (gradients_bounded w) as Hb.
  { apply run_bounded.
    unfold gradients_bounded, gradients_calls, function_runs. simpl. lia. }
  split; [done|].
  assert (lazy_consistent w) as Hw.
  { apply run_consistent. intros n. simpl. by rewrite Hempty, lookup_empty. }
  pose proof (lazy_consistent_le w "_train_program" Hw).
  unfold gradients_bounded in Hb. lia.
Qed.

(** *** Inference only *)

Lemma infer_program_inert w :
  training (self (_infer_program w).2) = training (self w)
  ∧ _params (self (_infer_program w).2) = _params (self w)
  ∧ function_runs "_train_program" (trace (_infer_program w).2)
    = function_runs "_train_program" (trace w)
  ∧ gradients_calls (trace (_infer_program w).2) = gradients_calls (trace w)
  ∧ __dict__ (self (_infer_program w).2) !! "_train_program"
    = __dict__ (self w) !! "_train_program".
Proof.
  split; [apply infer_program_training|].
  split; [by destruct (infer_program_self w) as [d ->]|].
  split; [|split].
  - destruct (infer_program_trace w) as [->| ->]; [done|].
    rewrite function_runs_snoc. simpl. lia.
  - destruct (infer_program_trace w) as [->| ->]; [done|].
    rewrite gradients_calls_snoc. simpl. lia.
  - destruct (__dict__ (self w) !! "_train_program") as [val|] eqn:Hl.
    + by apply getattr_lazy_keeps; [apply infer_function_quiet|].
    + by apply getattr_lazy_other_none; [apply infer_function_quiet| |].
Qed.

Lemma forward_inference inputs w :
  training (self w) = false →
  training (self (forward inputs w).2) = false
  ∧ function_runs "_train_program" (trace (forward inputs w).2)
    = function_runs "_train_program" (trace w)
  ∧ gradients_calls (trace (forward inputs w).2) = gradients_calls (trace w)
  ∧ __dict__ (self (forward inputs w).2) !! "_train_program"
    = __dict__ (self w) !! "_train_program".
Proof.
  intros Htr. destruct (_prepare (self w) inputs) as [[[iv ov] sc]|e] eqn:Hp.
  - rewrite (forward_ok _ _ _ _ _ Hp). simpl. frame_after_call.
    rewrite program_eq, Htr.
    destruct (infer_program_inert w) as (H1 & H2 & H3 & H4 & H5).
    destruct (infer_program_inert (_infer_program w).2)
      as (H1' & H2' & H3' & H4' & H5').
    rewrite function_runs_run_program, gradients_calls_snoc. simpl.
    rewrite Nat.add_0_r. repeat split; congruence.
  - by rewrite (forward_raise _ _ _ Hp).
Qed.

(** X19: an instance that is only ever used in inference mode never runs
    the function behind the training variant, never asks for gradients
    and never stores a training variant that it did not have. *)
Theorem inference_never_builds_training (acts : list action) (w : World) :
  training (self w) = false →
  Forall (λ a, a ≠ SetTraining true) acts →
  training (self (run acts w)) = false
  ∧ function_runs "_train_program" (trace (run acts w))
    = function_runs "_train_program" (trace w)
  ∧ gradients_calls (trace (run acts w)) = gradients_calls (trace w)
  ∧ __dict__ (self (run acts w)) !! "_train_program"
    = __dict__ (self w) !! "_train_program".
Proof.
  intros Htr Hacts. revert w Htr.
  induction Hacts as [|a acts Ha _ IH]; intros w Htr; [done|].
  assert (training (self (step a w)) = false
          ∧ function_runs "_train_program" (trace (step a w))
            = function_runs "_train_program" (trace w)
          ∧ gradients_calls (trace (step a w)) = gradients_calls (trace w)
          ∧ __dict__ (self (step a w)) !! "_train_program"
            = __dict__ (self w) !! "_train_program")
    as (Ht & Hf & Hg & Hd).
  { destruct a as [inputs|[|]]; [by apply forward_inference|done|done]. }
  change (run (a :: acts) w) with (run acts (step a w)).
  destruct (IH (step a w) Ht) as (? & ? & ? & ?).
  repeat split; congruence.
Qed.

(** *** What the interpreter is given *)

(** X20: the block that a call hands to the interpreter is the global
    block of the variant that the training flag selects, and that variant
    is stored on the instance afterwards; in inference mode the range of
    operators ends exactly at the end of that block. *)
Theorem forward_selects_variant (inputs : nest) (w : World) :
  is_ok (_prepare (self w) inputs) = true →
  ∃ call tr,
    trace (forward inputs w).2 = tr ++ [EvRunProgram call]
    ∧ is_test call = negb (training (self w))
    ∧ if training (self w) then
        ∃ train,
          __dict__ (self (forward inputs w).2) !! "_train_program" = Some train
          ∧ call_global_block call = global_block train
      else
        ∃ infer,
          __dict__ (self (forward inputs w).2) !! "_infer_program" = Some infer
          ∧ call_global_block call = global_block infer
          ∧ end_op_index call = op_size (call_global_block call).
Proof.
  destruct (_prepare (self w) inputs) as [[[iv ov] sc]|e] eqn:Hp; [|done].
  intros _. rewrite (forward_ok _ _ _ _ _ Hp). simpl. frame_after_call.
  eexists _, _. split; [reflexivity|]. simpl.
  split; [by rewrite infer_program_training, program_training|].
  rewrite program_eq. destruct (training (self w)) eqn:Htr.
  - exists (_train_program w).1. split; [|done].
    apply getattr_lazy_keeps; [apply infer_function_quiet|].
    apply getattr_lazy_stored, train_function_quiet.
  - pose proof (getattr_lazy_stored "_infer_program" _infer_program_function
                  w infer_function_quiet) as Hst.
    fold _infer_program in Hst.
    pose proof (getattr_lazy_cached "_infer_program" _infer_program_function
                  _ _ Hst) as Hcached.
    fold _infer_program in Hcached.
    exists (_infer_program w).1. rewrite !Hcached. done.
Qed.




End RestLayerProperties.

(** * Checks on the concrete instance *)

Example toy_layer_init :
  __init__ toy_program toy_inputs toy_outputs
    (Some (ParamsSeq [Leaf (LVarBase param_w); Leaf (LVarBase param_b)]))
  = Ok toy_layer.
Proof. vm_compute. reflexivity. Qed.

Example remove_sentinel_pair :
  _remove_no_value (NTuple [sentinel; Leaf (LInt 7)]) = Leaf (LInt 7).
Proof. vm_compute. reflexivity. Qed.

Example remove_sentinel_all :
  _remove_no_value (NList [sentinel; sentinel]) = Leaf LNone.
Proof. vm_compute. reflexivity. Qed.

Example remove_sentinel_none :
  _remove_no_value (NTuple [Leaf (LInt 7); Leaf (LInt 8)] : @nest Z_data)
  = NTuple [Leaf (LInt 7); Leaf (LInt 8)].
Proof. vm_compute. reflexivity. Qed.

Example forward_toy :
  (forward (F := toy_framework) toy_feed toy_world).1
  = Ok (Leaf (LVarBase
          (@mkVarBase Z_data "y" FP32 [1%Z] [5%Z] LOD_TENSOR false true
             LOD_TENSOR))).
Proof. vm_compute. reflexivity. Qed.

Example forward_interpreter_raises :
  (forward (F := failing_framework) toy_feed toy_world).1
  = Raise (InterpreterError "run_program")
  ∧ is_Some (__dict__ (self (forward (F := failing_framework) toy_feed
                               toy_world).2) !! "_infer_program").
Proof. split; [vm_compute; reflexivity|]. eexists. vm_compute. reflexivity. Qed.

(** * The theorems at the concrete instance *)

Lemma remove_no_value_spec_witness :
  _remove_no_value sentinel = Leaf LNone
  ∧ _remove_no_value (NTuple [sentinel; Leaf (LInt 7)]) = Leaf (LInt 7)
  ∧ _remove_no_value (NList [Leaf (LInt 7); Leaf (LInt 8)] : @nest Z_data)
    = NList [Leaf (LInt 7); Leaf (LInt 8)].
Proof.
  pose proof (@remove_no_value_spec Z_data) as (_ & Hone & _ & Hkeep & Hrem & _).
  split; [apply Hone; reflexivity|].
  split.
  - apply (proj1 (Hrem [sentinel; Leaf (LInt 7)]
                    ltac:(constructor; reflexivity))).
  - apply (proj2 (Hkeep [Leaf (LInt 7); Leaf (LInt 8)]
                    ltac:(repeat constructor))).
Defined.

Lemma restore_flatten_roundtrip_witness :
  restore (NestSequence_init toy_nest) (flatten toy_nest) = Ok toy_nest
  ∧ ∃ r, restore (NestSequence_init toy_nest)
           [LInt 5; LInt 6; LInt 7; LInt 8] = Ok r
         ∧ length (flatten r) = 4.
Proof.
  split.
  - apply (proj1 (@restore_flatten_roundtrip Z_data)).
  - apply (proj2 (@restore_flatten_roundtrip Z_data) toy_nest
             [LInt 5; LInt 6; LInt 7; LInt 8]).
    reflexivity.
Defined.

Lemma restore_arity_witness :
  restore (NestSequence_init toy_nest) [LInt 5] = Raise AssertionError
  ∧ ∃ r, restore (NestSequence_init toy_nest)
           [LInt 5; LInt 6; LInt 7; LInt 8] = Ok r
         ∧ same_structure toy_nest r = true
         ∧ flatten r = [LInt 5; LInt 6; LInt 7; LInt 8].
Proof.
  split.
  - apply (proj1 (@restore_arity Z_data (NestSequence_init toy_nest)
                    [LInt 5])).
    simpl. lia.
  - apply (proj2 (@restore_arity Z_data (NestSequence_init toy_nest)
                    [LInt 5; LInt 6; LInt 7; LInt 8])).
    reflexivity.
Defined.

Lemma variants_built_at_most_once_witness :
  function_runs "_train_program"
    (trace (run (F := toy_framework) toy_actions toy_world)) ≤ 1
  ∧ function_runs "_infer_program"
      (trace (run (F := toy_framework) toy_actions toy_world)) ≤ 1.
Proof.
  pose proof (@variants_built_at_most_once Z_data toy_framework toy_layer
                toy_actions eq_refl) as (Ht & Hi & _).
  split; [exact Ht|exact Hi].
Defined.

Lemma restore_out_spec_witness :
  ∃ outs,
    restore (_outputs toy_layer)
      (scatter (tolist (_outputs toy_layer)) [fill param_w]) = Ok outs
    ∧ same_structure (raw_input (_outputs toy_layer)) outs = true.
Proof.
  destruct (@restore_out_spec Z_data toy_framework toy_layer [fill param_w]
              eq_refl eq_refl) as (outs & Hr & Hs & _).
  exists outs. split; [exact Hr|exact Hs].
Defined.

Lemma no_backward_without_params_or_targets_witness :
  gradients_calls
    (trace (_train_program_function (F := toy_framework) no_param_world).2)
  = gradients_calls (trace no_param_world)
  ∧ op_size (global_block
       (_train_program_function (F := toy_framework) no_param_world).1)
    = op_size (global_block (_infer_program_function no_param_world).1).
Proof.
  pose proof (@no_backward_without_params_or_targets Z_data toy_framework
                no_param_world (or_introl eq_refl)) as (Hg & Hop).
  split; [exact Hg|exact (proj1 (Hop eq_refl))].
Defined.

Lemma check_params_all_inited_spec_witness :
  (∃ name,
     undeclared_parameter toy_program
       (param_names [Leaf (LVarBase param_b)]) name
     ∧ __init__ toy_program toy_inputs toy_outputs
         (Some (ParamsSeq [Leaf (LVarBase param_b)]))
       = Raise (ValueError_param_created name))
  ∧ is_ok (__init__ toy_program toy_inputs toy_outputs
             (Some (ParamsSeq [Leaf (LVarBase param_w)]))) = true.
Proof.
  split.
  - apply (proj1 (@check_params_all_inited_spec Z_data toy_program
                    toy_inputs toy_outputs [Leaf (LVarBase param_b)]
                    ltac:(repeat constructor; eexists; reflexivity))).
    exists "w", (global_block toy_program), var_w.
    split; [constructor|]. split; [simpl; do 2 constructor|].
    split; [reflexivity|]. unfold param_names. simpl.
    intros [H|H]%elem_of_union;
      [apply elem_of_singleton in H; discriminate|by apply elem_of_empty in H].
  - reflexivity.
Defined.

Lemma forward_collections_nonempty_witness :
  ∃ call tr,
    trace (forward (F := toy_framework) (NTuple []) toy_world).2
    = tr ++ [EvRunProgram call]
    ∧ X call = [Fake_var] ∧ DOut call = [Fake_var]
    ∧ Params call ≠ [] ∧ Out call ≠ [].
Proof.
  destruct (proj1 (proj2 (@forward_collections_nonempty Z_data toy_framework
                            (NTuple []) toy_world))
              [] [VarBase_of_desc (desc var_y) false] tmp_scope_vec eq_refl)
    as (call & tr & Htr & HX & _ & _ & _ & HD & _ & HP & HO & _).
  exists call, tr. split; [exact Htr|].
  split; [exact HX|]. split; [exact HD|]. split; [exact HP|exact HO].
Defined.

Lemma forward_builds_infer_program_witness :
  ∃ infer,
    __dict__ (self (forward (F := toy_framework) toy_feed toy_world).2)
      !! "_infer_program" = Some infer
    ∧ infer = _clone_for_test toy_program.
Proof.
  destruct (@forward_builds_infer_program Z_data toy_framework toy_feed
              toy_world eq_refl)
    as (infer & call & tr & Hd & _ & _ & _ & _ & Hv).
  exists infer. split; [exact Hd|]. apply Hv. reflexivity.
Defined.

(** * The further properties at the concrete instance *)

Lemma var_ids_spec_witness :
  ∃ x, getitem (NestSequence_init mixed_nest) 2 = Ok x
       ∧ is_tensor_leaf x = true.
Proof.
  apply (proj2 (proj2 (proj2 (proj2 (@var_ids_spec Z_data mixed_nest))))).
  vm_compute. repeat constructor.
Defined.

Lemma check_non_variable_spec_witness :
  NoDup [int_type; str_type; NoneType; bool_type]
  ∧ ∀ t, t ∈ [int_type; str_type; NoneType; bool_type] ↔
         ∃ x, x ∈ tolist (NestSequence_init toy_nest)
              ∧ is_tensor_leaf x = false ∧ type_of x = Some t.
Proof.
  apply (proj2 (@check_non_variable_spec Z_data (NestSequence_init toy_nest)
                  true)).
  reflexivity.
Defined.

Lemma check_params_type_errors_witness :
  __init__ toy_program toy_inputs toy_outputs
    (Some (ParamsSeq [Leaf (LVarBase param_w); Leaf (LInt 3)]))
  = Raise (TypeError_param_entry 1).
Proof.
  apply (proj2 (proj2 (@check_params_type_errors Z_data toy_program
                         toy_inputs toy_outputs))
           [Leaf (LVarBase param_w)] (Leaf (LInt 3)) []).
  - repeat constructor. eexists. reflexivity.
  - reflexivity.
Defined.

Lemma get_double_grads_spec_witness :
  @_get_double_grads Z_data toy_program = []
  ∧ valid_vars (@_get_double_grads Z_data toy_program) = [Fake_var].
Proof.
  apply (proj2 (proj2 (proj2 (@get_double_grads_spec Z_data toy_program)))).
  repeat constructor.
Defined.

Lemma change_is_test_status_spec_witness :
  op_view (λ op, attrs op !! "op_callstack")
    (_change_is_test_status toy_program true)
  = op_view (λ op, attrs op !! "op_callstack") toy_program.
Proof.
  apply (change_is_test_status_spec toy_program true). discriminate.
Defined.

Lemma remove_op_call_stack_spec_witness :
  op_view (λ op, attrs op !! "is_test") (_remove_op_call_stack toy_program)
  = op_view (λ op, attrs op !! "is_test") toy_program.
Proof.
  apply (remove_op_call_stack_spec toy_program). discriminate.
Defined.

Lemma prepare_spec_witness :
  Forall2 (prepared (tolist (_inputs toy_layer)))
    (indexed_arrays 0 (flatten toy_feed)) [VarBase_of_ndarray toy_array "x"]
  ∧ Forall2 (placeholder (tolist (_outputs toy_layer)))
      (var_ids (_outputs toy_layer)) [VarBase_of_desc (desc var_y) false].
Proof.
  destruct (@prepare_spec Z_data toy_layer toy_feed
              [VarBase_of_ndarray toy_array "x"]
              [VarBase_of_desc (desc var_y) false] tmp_scope_vec eq_refl)
    as (_ & Hin & _ & Hout & _).
  split; [exact Hin|exact Hout].
Defined.

Lemma prepare_errors_witness :
  _prepare toy_layer (Leaf LNone) = Raise AssertionError
  ∧ _prepare toy_layer (NTuple [Leaf (LInt 0); Leaf (LNdarray toy_array)])
    = Raise IndexError.
Proof.
  split.
  - apply (proj1 (@prepare_errors Z_data toy_layer (Leaf LNone)));
      intros xs; discriminate.
  - apply (proj2 (@prepare_errors Z_data toy_layer
                    (NTuple [Leaf (LInt 0); Leaf (LNdarray toy_array)]))
             [LInt 0] (LNdarray toy_array) []).
    + left. eexists. reflexivity.
    + reflexivity.
    + repeat constructor.
    + reflexivity.
    + simpl. lia.
Defined.

Lemma restore_out_arity_witness :
  _restore_out (F := toy_framework) toy_layer [] = Raise IndexError.
Proof.
  apply (proj1 (@restore_out_arity Z_data toy_framework toy_layer []
                  eq_refl)).
  simpl. lia.
Defined.

Lemma init_invariants_witness :
  training toy_layer = true ∧ __dict__ toy_layer = ∅
  ∧ _origin_main_program toy_layer = toy_program.
Proof.
  destruct (@init_invariants Z_data toy_program toy_inputs toy_outputs
              (Some (ParamsSeq [Leaf (LVarBase param_w);
                                Leaf (LVarBase param_b)]))
              toy_layer toy_layer_init) as (Ht & Hd & Ho & _).
  split; [exact Ht|]. split; [exact Hd|exact Ho].
Defined.

Lemma append_backward_desc_spec_witness :
  _append_backward_desc (F := toy_framework) toy_program toy_world
  = (@gradients Z_data toy_framework
       (_change_is_test_status toy_program false) [var_y],
     @mkWorld Z_data toy_layer [@EvGradients Z_data [var_y]]).
Proof.
  apply (proj1 (@append_backward_desc_spec Z_data toy_framework toy_program
                  toy_world)); discriminate.
Defined.

Lemma forward_returns_witness :
  ∃ restored,
    (forward (F := toy_framework) toy_feed toy_world).1
    = Ok (_remove_no_value restored).
Proof.
  destruct (@forward_returns Z_data toy_framework toy_feed toy_world
              [VarBase_of_ndarray toy_array "x"]
              [VarBase_of_desc (desc var_y) false] tmp_scope_vec
              eq_refl eq_refl (or_intror (ex_intro _ _ eq_refl)))
    as (call & tr & _ & restored & _ & Hres).
  exists restored. exact Hres.
Defined.

Lemma gradients_called_at_most_once_witness :
  gradients_calls (trace (run (F := toy_framework) toy_actions toy_world)) ≤ 1.
Proof.
  apply (@gradients_called_at_most_once Z_data toy_framework toy_layer
           toy_actions eq_refl).
Defined.

Lemma inference_never_builds_training_witness :
  function_runs "_train_program"
    (trace (run (F := toy_framework) inference_actions inference_world)) = 0
  ∧ gradients_calls
      (trace (run (F := toy_framework) inference_actions inference_world)) = 0.
Proof.
  destruct (@inference_never_builds_training Z_data toy_framework
              inference_actions inference_world eq_refl)
    as (_ & Hf & Hg & _).
  - repeat constructor; discriminate.
  - split; [exact Hf|exact Hg].
Defined.

Lemma forward_selects_variant_witness :
  ∃ call tr,
    trace (forward (F := toy_framework) toy_feed toy_world).2
    = tr ++ [EvRunProgram call]
    ∧ is_test call = false
    ∧ ∃ train,
        __dict__ (self (forward (F := toy_framework) toy_feed toy_world).2)
          !! "_train_program" = Some train
        ∧ call_global_block call = global_block train.
Proof.
  apply (@forward_selects_variant Z_data toy_framework toy_feed toy_world).
  reflexivity.
Defined.


(** * Where the code departs from the specification *)

(** C4, as the specification states it, fails: the output template is a
    list of one Variable, no output is a sentinel, and yet [forward]
    returns a bare tensor, which has not the composition of the template.
    The unwrapping is done by [_restore_out] itself. *)
Lemma restore_out_unwraps_single_output :
  ∃ t,
    (forward (F := toy_framework) toy_feed toy_world).1 = Ok (Leaf (LVarBase t))
    ∧ _is_no_value (Leaf (LVarBase t)) = false
    ∧ _restore_out (F := toy_framework) toy_layer [t] = Ok (Leaf (LVarBase t))
    ∧ raw_input (_outputs toy_layer) = NList [Leaf (LVariable var_y)]
    ∧ same_structure (raw_input (_outputs toy_layer)) (Leaf (LVarBase t))
      = false.
Proof.
  exists (@mkVarBase Z_data "y" FP32 [1%Z] [5%Z] LOD_TENSOR false true
            LOD_TENSOR).
  repeat split; vm_compute; reflexivity.
Qed.

(** C10, as the specification states it, fails: a call whose inputs are a
    bare tensor, neither a tuple nor a list, raises at the assertion of
    [_prepare]; no argument of [trace_op] is evaluated, the interpreter is
    not called, and the instance has no inference variant afterwards. *)
Lemma forward_without_inference_variant :
  (forward (F := toy_framework) (Leaf (LVarBase param_w)) toy_world).1
  = Raise AssertionError
  ∧ trace (forward (F := toy_framework) (Leaf (LVarBase param_w))
             toy_world).2 = []
  ∧ __dict__ (self (forward (F := toy_framework) (Leaf (LVarBase param_w))
                      toy_world).2) !! "_infer_program" = None.
Proof. repeat split. Qed.

(** C8, as the specification states it, fails: the graph defines the
    persistable Variable [buf], no parameter of that name is supplied, and
    construction succeeds; the check looks at Variables of the Parameter
    class only. *)
Lemma persistable_variable_not_checked :
  ("buf", var_buf) ∈ vars (global_block buf_program)
  ∧ persistable var_buf = true
  ∧ ("buf" ∉ @param_names Z_data [])
  ∧ is_ok (__init__ buf_program toy_inputs toy_outputs
             (Some (@ParamsSeq Z_data []))) = true.
Proof.
  split; [simpl; do 2 constructor|]. split; [reflexivity|].
  split; [unfold param_names; simpl; apply not_elem_of_empty|]. reflexivity.
Qed.
